(** * SAMPLER CNA looper core: a shallow embedding and its properties

    The development follows the C++ sources of the looper:
    - [sampler_state_machine.h]  (class [LooperStateMachine]),
    - [sampler_sync.h]           (class [ClockSync]),
    - [sampler_engine.h]         (class [OverdubLooper]).

    Conventions.
    - [size_t] values are integers in [0, 2^size_bits); every arithmetic
      operation of the source on [size_t] is written with its reduction
      modulo [2^size_bits].  The width is a parameter ([Platform]); the
      Daisy Seed target (Cortex-M7) has [size_bits = 32].
    - [float] is kept abstract ([FloatOps]): the operations the source
      uses, and three order facts that hold of IEEE-754 arithmetic.
    - Behaviour the C++ standard leaves undefined (an access outside an
      array, [%] by zero, a float-to-integer conversion whose value does
      not fit) is the result [None]. *)

From Stdlib Require Import ZArith QArith Bool Lia.
From stdpp Require Import base list.

Local Open Scope Z_scope.

(** ** Undefined-behaviour monad *)

Notation "'do' x <- m ; k" :=
  (match m with Some x => k | None => None end)
  (at level 10, x name, m at level 100, k at level 200, only parsing).

Notation "'do' ' p <- m ; k" :=
  (match m with Some p => k | None => None end)
  (at level 10, p pattern, m at level 100, k at level 200, only parsing).

(** ** [size_t] *)

(** The C standard guarantees at least 16 bits. *)
Class Platform := {
  size_bits : Z;
  size_bits_min : 16 <= size_bits
}.

Section SizeT.
Context `{Platform}.

Definition SIZE_MOD : Z := 2 ^ size_bits.

Definition wrap (z : Z) : Z := z mod SIZE_MOD.

Definition size_add (a b : Z) : Z := wrap (a + b).
Definition size_sub (a b : Z) : Z := wrap (a - b).
Definition size_mul (a b : Z) : Z := wrap (a * b).

(** [a / b] and [a % b] on unsigned operands; undefined for [b = 0]. *)
Definition size_div (a b : Z) : option Z :=
  if b =? 0 then None else Some (a / b).
Definition size_rem (a b : Z) : option Z :=
  if b =? 0 then None else Some (a mod b).

Definition is_size (z : Z) : Prop := 0 <= z < SIZE_MOD.
End SizeT.

(** [uint8_t] arithmetic. *)
Definition wrap8 (z : Z) : Z := z mod 256.

(** ** [float] *)

Class FloatOps := {
  float : Type;
  (** the float nearest to a rational: literals and integer conversions *)
  of_Q : Q -> float;
  fadd : float -> float -> float;
  fsub : float -> float -> float;
  fmul : float -> float -> float;
  fdiv : float -> float -> float;
  (** [fleb x y] is [x <= y], [fltb x y] is [x < y] *)
  fleb : float -> float -> bool;
  fltb : float -> float -> bool;
  (** integral part, rounding toward zero; [None] for NaN and infinities *)
  ftrunc : float -> option Z;
  ftanh : float -> float;
  fleb_zero_zero : fleb (of_Q 0) (of_Q 0) = true;
  fleb_pos_zero : forall n : Z, 1 <= n -> fleb (of_Q (inject_Z n)) (of_Q 0) = false;
  fltb_fleb : forall x y, fltb x y = true -> fleb y x = false
}.

Section FloatConv.
Context `{Platform} `{FloatOps}.

Definition fzero : float := of_Q 0.
Definition fone : float := of_Q 1.

(** [static_cast<float>(n)] and the implicit conversion of a [size_t]
    operand in mixed arithmetic. *)
Definition of_size (n : Z) : float := of_Q (inject_Z n).

(** [static_cast<size_t>(x)]: defined when the truncated value is
    representable. *)
Definition to_size (x : float) : option Z :=
  do z <- ftrunc x;
  if (0 <=? z) && (z <? SIZE_MOD) then Some z else None.
End FloatConv.

(** ** sampler_state_machine.h *)

Inductive LooperState : Type :=
  | IDLE
  | RECORDING_INITIAL
  | PLAYING
  | OVERDUBBING
  | PAUSED.

Inductive LooperEvent : Type :=
  | PRESS_REC
  | RELEASE_REC
  | PRESS_PLAY
  | PRESS_STOP
  | PRESS_PAUSE
  | LOOP_ENDED
  | CLEAR_LOOP.

Definition LooperState_eqb (a b : LooperState) : bool :=
  match a, b with
  | IDLE, IDLE | RECORDING_INITIAL, RECORDING_INITIAL | PLAYING, PLAYING
  | OVERDUBBING, OVERDUBBING | PAUSED, PAUSED => true
  | _, _ => false
  end.

Definition LooperEvent_eqb (a b : LooperEvent) : bool :=
  match a, b with
  | PRESS_REC, PRESS_REC | RELEASE_REC, RELEASE_REC | PRESS_PLAY, PRESS_PLAY
  | PRESS_STOP, PRESS_STOP | PRESS_PAUSE, PRESS_PAUSE
  | LOOP_ENDED, LOOP_ENDED | CLEAR_LOOP, CLEAR_LOOP => true
  | _, _ => false
  end.

(** The virtual callbacks of the class.  A derived class supplies its own
    pair; they act on the data [U] of the derived object. *)
Class Hooks (U : Type) := {
  OnEnter : LooperState -> U -> U;
  OnExit : LooperState -> U -> U
}.

(** The base class: both callbacks have an empty body. *)
#[export] Instance base_hooks : Hooks unit := {|
  OnEnter := fun _ u => u;
  OnExit := fun _ u => u
|}.

Module LooperStateMachine.
Section Machine.
Context {U : Type} `{Hooks U}.

Record t : Type := mk {
  _current_state : LooperState;
  _previous_state : LooperState;
  derived : U
}.

(** Constructor. *)
Definition init (u : U) : t := mk IDLE IDLE u.

Definition GetState (m : t) : LooperState := _current_state m.
Definition GetPreviousState (m : t) : LooperState := _previous_state m.

Definition CanTransition (from to : LooperState) : bool :=
  if LooperState_eqb to IDLE then true
  else
    match from with
    | IDLE => LooperState_eqb to RECORDING_INITIAL
    | RECORDING_INITIAL =>
        LooperState_eqb to PLAYING || LooperState_eqb to IDLE
    | PLAYING =>
        LooperState_eqb to OVERDUBBING || LooperState_eqb to PAUSED
        || LooperState_eqb to IDLE
    | OVERDUBBING => LooperState_eqb to PLAYING || LooperState_eqb to IDLE
    | PAUSED => LooperState_eqb to PLAYING || LooperState_eqb to IDLE
    end.

Definition GetNextState (current : LooperState) (event : LooperEvent)
  : LooperState :=
  match current with
  | IDLE =>
      if LooperEvent_eqb event PRESS_REC then RECORDING_INITIAL
      else current
  | RECORDING_INITIAL =>
      if LooperEvent_eqb event RELEASE_REC then PLAYING
      else if LooperEvent_eqb event PRESS_STOP then IDLE
      else current
  | PLAYING =>
      if LooperEvent_eqb event PRESS_REC then OVERDUBBING
      else if LooperEvent_eqb event PRESS_PAUSE then PAUSED
      else if LooperEvent_eqb event PRESS_STOP
              || LooperEvent_eqb event CLEAR_LOOP then IDLE
      else current
  | OVERDUBBING =>
      if LooperEvent_eqb event RELEASE_REC then PLAYING
      else if LooperEvent_eqb event PRESS_STOP then IDLE
      else current
  | PAUSED =>
      if LooperEvent_eqb event PRESS_PLAY
         || LooperEvent_eqb event PRESS_PAUSE then PLAYING
      else if LooperEvent_eqb event PRESS_STOP
              || LooperEvent_eqb event CLEAR_LOOP then IDLE
      else current
  end.

Definition TransitionTo (new_state : LooperState) (m : t) : bool * t :=
  if negb (CanTransition (_current_state m) new_state) then (false, m)
  else
    let u1 := OnExit (_current_state m) (derived m) in
    let u2 := OnEnter new_state u1 in
    (true, mk new_state (_current_state m) u2).

Definition ProcessEvent (event : LooperEvent) (m : t) : bool * t :=
  let new_state := GetNextState (_current_state m) event in
  if LooperState_eqb new_state (_current_state m) then (false, m)
  else TransitionTo new_state m.

Definition IsInState (state : LooperState) (m : t) : bool :=
  LooperState_eqb (_current_state m) state.

Definition IsActive (m : t) : bool :=
  negb (LooperState_eqb (_current_state m) IDLE).

Definition IsRecording (m : t) : bool :=
  LooperState_eqb (_current_state m) RECORDING_INITIAL
  || LooperState_eqb (_current_state m) OVERDUBBING.

Definition Reset (m : t) : t := snd (TransitionTo IDLE m).
End Machine.
Arguments t U : clear implicits.
End LooperStateMachine.

(** The event table of the specification (section 4.1), row by row. *)
Definition event_table (s : LooperState) (e : LooperEvent)
  : option LooperState :=
  match s, e with
  | IDLE, PRESS_REC => Some RECORDING_INITIAL
  | RECORDING_INITIAL, RELEASE_REC => Some PLAYING
  | RECORDING_INITIAL, PRESS_STOP => Some IDLE
  | PLAYING, PRESS_REC => Some OVERDUBBING
  | PLAYING, PRESS_PAUSE => Some PAUSED
  | PLAYING, PRESS_STOP | PLAYING, CLEAR_LOOP => Some IDLE
  | OVERDUBBING, RELEASE_REC => Some PLAYING
  | OVERDUBBING, PRESS_STOP => Some IDLE
  | PAUSED, PRESS_PLAY | PAUSED, PRESS_PAUSE => Some PLAYING
  | PAUSED, PRESS_STOP | PAUSED, CLEAR_LOOP => Some IDLE
  | _, _ => None
  end.

(** ** sampler_sync.h *)

Module ClockSync.
Section Clock.
Context `{Platform} `{FloatOps}.

Record t : Type := mk {
  _bpm : float;
  _time_sig_numerator : Z;
  _time_sig_denominator : Z;
  _sample_rate : float;
  _samples_per_beat : Z;
  _samples_per_bar : Z;
  _sample_counter : Z;
  _beat_counter : Z
}.

(** The quotient is converted with [static_cast<size_t>]. *)
Definition CalculateTimings (c : t) : option t :=
  do spb <- to_size (fdiv (fmul (_sample_rate c) (of_Q 60)) (_bpm c));
  Some (mk (_bpm c) (_time_sig_numerator c) (_time_sig_denominator c)
           (_sample_rate c) spb (size_mul spb (_time_sig_numerator c))
           (_sample_counter c) (_beat_counter c)).

(** Constructor. *)
Definition init : option t :=
  CalculateTimings (mk (of_Q 120) 4 4 (of_Q 48000) 0 0 0 0).

Definition SetBPM (bpm : float) (c : t) : option t :=
  if fleb bpm fzero then Some c
  else
    CalculateTimings
      (mk bpm (_time_sig_numerator c) (_time_sig_denominator c)
          (_sample_rate c) (_samples_per_beat c) (_samples_per_bar c)
          (_sample_counter c) (_beat_counter c)).

Definition SetSampleRate (sample_rate : float) (c : t) : option t :=
  if fleb sample_rate fzero then Some c
  else
    CalculateTimings
      (mk (_bpm c) (_time_sig_numerator c) (_time_sig_denominator c)
          sample_rate (_samples_per_beat c) (_samples_per_bar c)
          (_sample_counter c) (_beat_counter c)).

(** Both arguments are [uint8_t]. *)
Definition SetTimeSignature (numerator denominator : Z) (c : t)
  : option t :=
  if (numerator =? 0) || (denominator =? 0) then Some c
  else
    CalculateTimings
      (mk (_bpm c) numerator denominator
          (_sample_rate c) (_samples_per_beat c) (_samples_per_bar c)
          (_sample_counter c) (_beat_counter c)).

Definition Tick (c : t) : t :=
  let counter := size_add (_sample_counter c) 1 in
  if (0 <? _samples_per_beat c) && (_samples_per_beat c <=? counter) then
    let beat := wrap8 (_beat_counter c + 1) in
    mk (_bpm c) (_time_sig_numerator c) (_time_sig_denominator c)
       (_sample_rate c) (_samples_per_beat c) (_samples_per_bar c)
       0 (if _time_sig_numerator c <=? beat then 0 else beat)
  else
    mk (_bpm c) (_time_sig_numerator c) (_time_sig_denominator c)
       (_sample_rate c) (_samples_per_beat c) (_samples_per_bar c)
       counter (_beat_counter c).

Definition ShouldTriggerOnBeat (c : t) : bool := _sample_counter c <? 10.

Definition IsDownbeat (c : t) : bool :=
  (_beat_counter c =? 0) && ShouldTriggerOnBeat c.


Definition GetExactBeatLength (beat_count : Z) (c : t) : Z :=
  size_mul beat_count (_samples_per_beat c).


Definition GetBPM (c : t) : float := _bpm c.
Definition GetSamplesPerBeat (c : t) : Z := _samples_per_beat c.
Definition GetSamplesPerBar (c : t) : Z := _samples_per_bar c.

Definition Reset (c : t) : t :=
  mk (_bpm c) (_time_sig_numerator c) (_time_sig_denominator c)
     (_sample_rate c) (_samples_per_beat c) (_samples_per_bar c) 0 0.
End Clock.
End ClockSync.

(** ** sampler_engine.h *)

Module OverdubLooper.
Section Engine.
Context `{Platform} `{FloatOps}.

Definition CROSSFADE_SAMPLES : Z := 128.
Definition MAX_UNDO_LEVELS : Z := 3.
Definition sizeof_float : Z := 4.

Record t : Type := mk {
  _buffer : list float;
  _buffer_length : Z;
  _loop_start : Z;
  _loop_length : Z;
  _play_head : float;
  _rec_head : Z;
  _is_empty : bool;
  _is_recording : bool;
  _reverse : bool;
  _overdubbing : bool;
  _playback_speed : float;
  _quantize : bool;
  _quantize_beats : Z;
  _bpm : float;
  _samples_per_beat : Z;
  _inv_buffer_length : float;
  _inv_crossfade_samples : float;
  _undo_buffers : list (list float);
  _undo_enabled : bool;
  _undo_count : Z;
  _undo_write_index : Z;
  _undo_read_index : Z;
  _undo_depth : Z;
  _redo_depth : Z
}.

(** Assignment to one member; the others are copied. *)
Definition set_buffer (v : list float) (st : t) : t :=
  mk
    v (_buffer_length st) (_loop_start st) (_loop_length st)
    (_play_head st) (_rec_head st) (_is_empty st) (_is_recording st)
    (_reverse st) (_overdubbing st) (_playback_speed st) (_quantize st)
    (_quantize_beats st) (_bpm st) (_samples_per_beat st)
    (_inv_buffer_length st) (_inv_crossfade_samples st)
    (_undo_buffers st) (_undo_enabled st) (_undo_count st)
    (_undo_write_index st) (_undo_read_index st) (_undo_depth st)
    (_redo_depth st).
Definition set_buffer_length (v : Z) (st : t) : t :=
  mk
    (_buffer st) v (_loop_start st) (_loop_length st) (_play_head st)
    (_rec_head st) (_is_empty st) (_is_recording st) (_reverse st)
    (_overdubbing st) (_playback_speed st) (_quantize st)
    (_quantize_beats st) (_bpm st) (_samples_per_beat st)
    (_inv_buffer_length st) (_inv_crossfade_samples st)
    (_undo_buffers st) (_undo_enabled st) (_undo_count st)
    (_undo_write_index st) (_undo_read_index st) (_undo_depth st)
    (_redo_depth st).
Definition set_loop_start (v : Z) (st : t) : t :=
  mk
    (_buffer st) (_buffer_length st) v (_loop_length st) (_play_head st)
    (_rec_head st) (_is_empty st) (_is_recording st) (_reverse st)
    (_overdubbing st) (_playback_speed st) (_quantize st)
    (_quantize_beats st) (_bpm st) (_samples_per_beat st)
    (_inv_buffer_length st) (_inv_crossfade_samples st)
    (_undo_buffers st) (_undo_enabled st) (_undo_count st)
    (_undo_write_index st) (_undo_read_index st) (_undo_depth st)
    (_redo_depth st).
Definition set_loop_length (v : Z) (st : t) : t :=
  mk
    (_buffer st) (_buffer_length st) (_loop_start st) v (_play_head st)
    (_rec_head st) (_is_empty st) (_is_recording st) (_reverse st)
    (_overdubbing st) (_playback_speed st) (_quantize st)
    (_quantize_beats st) (_bpm st) (_samples_per_beat st)
    (_inv_buffer_length st) (_inv_crossfade_samples st)
    (_undo_buffers st) (_undo_enabled st) (_undo_count st)
    (_undo_write_index st) (_undo_read_index st) (_undo_depth st)
    (_redo_depth st).
Definition set_play_head (v : float) (st : t) : t :=
  mk
    (_buffer st) (_buffer_length st) (_loop_start st) (_loop_length st) v
    (_rec_head st) (_is_empty st) (_is_recording st) (_reverse st)
    (_overdubbing st) (_playback_speed st) (_quantize st)
    (_quantize_beats st) (_bpm st) (_samples_per_beat st)
    (_inv_buffer_length st) (_inv_crossfade_samples st)
    (_undo_buffers st) (_undo_enabled st) (_undo_count st)
    (_undo_write_index st) (_undo_read_index st) (_undo_depth st)
    (_redo_depth st).
Definition set_rec_head (v : Z) (st : t) : t :=
  mk
    (_buffer st) (_buffer_length st) (_loop_start st) (_loop_length st)
    (_play_head st) v (_is_empty st) (_is_recording st) (_reverse st)
    (_overdubbing st) (_playback_speed st) (_quantize st)
    (_quantize_beats st) (_bpm st) (_samples_per_beat st)
    (_inv_buffer_length st) (_inv_crossfade_samples st)
    (_undo_buffers st) (_undo_enabled st) (_undo_count st)
    (_undo_write_index st) (_undo_read_index st) (_undo_depth st)
    (_redo_depth st).
Definition set_is_empty (v : bool) (st : t) : t :=
  mk
    (_buffer st) (_buffer_length st) (_loop_start st) (_loop_length st)
    (_play_head st) (_rec_head st) v (_is_recording st) (_reverse st)
    (_overdubbing st) (_playback_speed st) (_quantize st)
    (_quantize_beats st) (_bpm st) (_samples_per_beat st)
    (_inv_buffer_length st) (_inv_crossfade_samples st)
    (_undo_buffers st) (_undo_enabled st) (_undo_count st)
    (_undo_write_index st) (_undo_read_index st) (_undo_depth st)
    (_redo_depth st).
Definition set_is_recording (v : bool) (st : t) : t :=
  mk
    (_buffer st) (_buffer_length st) (_loop_start st) (_loop_length st)
    (_play_head st) (_rec_head st) (_is_empty st) v (_reverse st)
    (_overdubbing st) (_playback_speed st) (_quantize st)
    (_quantize_beats st) (_bpm st) (_samples_per_beat st)
    (_inv_buffer_length st) (_inv_crossfade_samples st)
    (_undo_buffers st) (_undo_enabled st) (_undo_count st)
    (_undo_write_index st) (_undo_read_index st) (_undo_depth st)
    (_redo_depth st).
Definition set_reverse (v : bool) (st : t) : t :=
  mk
    (_buffer st) (_buffer_length st) (_loop_start st) (_loop_length st)
    (_play_head st) (_rec_head st) (_is_empty st) (_is_recording st) v
    (_overdubbing st) (_playback_speed st) (_quantize st)
    (_quantize_beats st) (_bpm st) (_samples_per_beat st)
    (_inv_buffer_length st) (_inv_crossfade_samples st)
    (_undo_buffers st) (_undo_enabled st) (_undo_count st)
    (_undo_write_index st) (_undo_read_index st) (_undo_depth st)
    (_redo_depth st).
Definition set_overdubbing (v : bool) (st : t) : t :=
  mk
    (_buffer st) (_buffer_length st) (_loop_start st) (_loop_length st)
    (_play_head st) (_rec_head st) (_is_empty st) (_is_recording st)
    (_reverse st) v (_playback_speed st) (_quantize st)
    (_quantize_beats st) (_bpm st) (_samples_per_beat st)
    (_inv_buffer_length st) (_inv_crossfade_samples st)
    (_undo_buffers st) (_undo_enabled st) (_undo_count st)
    (_undo_write_index st) (_undo_read_index st) (_undo_depth st)
    (_redo_depth st).
Definition set_playback_speed (v : float) (st : t) : t :=
  mk
    (_buffer st) (_buffer_length st) (_loop_start st) (_loop_length st)
    (_play_head st) (_rec_head st) (_is_empty st) (_is_recording st)
    (_reverse st) (_overdubbing st) v (_quantize st) (_quantize_beats st)
    (_bpm st) (_samples_per_beat st) (_inv_buffer_length st)
    (_inv_crossfade_samples st) (_undo_buffers st) (_undo_enabled st)
    (_undo_count st) (_undo_write_index st) (_undo_read_index st)
    (_undo_depth st) (_redo_depth st).
Definition set_quantize (v : bool) (st : t) : t :=
  mk
    (_buffer st) (_buffer_length st) (_loop_start st) (_loop_length st)
    (_play_head st) (_rec_head st) (_is_empty st) (_is_recording st)
    (_reverse st) (_overdubbing st) (_playback_speed st) v
    (_quantize_beats st) (_bpm st) (_samples_per_beat st)
    (_inv_buffer_length st) (_inv_crossfade_samples st)
    (_undo_buffers st) (_undo_enabled st) (_undo_count st)
    (_undo_write_index st) (_undo_read_index st) (_undo_depth st)
    (_redo_depth st).
Definition set_quantize_beats (v : Z) (st : t) : t :=
  mk
    (_buffer st) (_buffer_length st) (_loop_start st) (_loop_length st)
    (_play_head st) (_rec_head st) (_is_empty st) (_is_recording st)
    (_reverse st) (_overdubbing st) (_playback_speed st) (_quantize st) v
    (_bpm st) (_samples_per_beat st) (_inv_buffer_length st)
    (_inv_crossfade_samples st) (_undo_buffers st) (_undo_enabled st)
    (_undo_count st) (_undo_write_index st) (_undo_read_index st)
    (_undo_depth st) (_redo_depth st).
Definition set_bpm (v : float) (st : t) : t :=
  mk
    (_buffer st) (_buffer_length st) (_loop_start st) (_loop_length st)
    (_play_head st) (_rec_head st) (_is_empty st) (_is_recording st)
    (_reverse st) (_overdubbing st) (_playback_speed st) (_quantize st)
    (_quantize_beats st) v (_samples_per_beat st) (_inv_buffer_length st)
    (_inv_crossfade_samples st) (_undo_buffers st) (_undo_enabled st)
    (_undo_count st) (_undo_write_index st) (_undo_read_index st)
    (_undo_depth st) (_redo_depth st).
Definition set_samples_per_beat (v : Z) (st : t) : t :=
  mk
    (_buffer st) (_buffer_length st) (_loop_start st) (_loop_length st)
    (_play_head st) (_rec_head st) (_is_empty st) (_is_recording st)
    (_reverse st) (_overdubbing st) (_playback_speed st) (_quantize st)
    (_quantize_beats st) (_bpm st) v (_inv_buffer_length st)
    (_inv_crossfade_samples st) (_undo_buffers st) (_undo_enabled st)
    (_undo_count st) (_undo_write_index st) (_undo_read_index st)
    (_undo_depth st) (_redo_depth st).
Definition set_inv_buffer_length (v : float) (st : t) : t :=
  mk
    (_buffer st) (_buffer_length st) (_loop_start st) (_loop_length st)
    (_play_head st) (_rec_head st) (_is_empty st) (_is_recording st)
    (_reverse st) (_overdubbing st) (_playback_speed st) (_quantize st)
    (_quantize_beats st) (_bpm st) (_samples_per_beat st) v
    (_inv_crossfade_samples st) (_undo_buffers st) (_undo_enabled st)
    (_undo_count st) (_undo_write_index st) (_undo_read_index st)
    (_undo_depth st) (_redo_depth st).
Definition set_inv_crossfade_samples (v : float) (st : t) : t :=
  mk
    (_buffer st) (_buffer_length st) (_loop_start st) (_loop_length st)
    (_play_head st) (_rec_head st) (_is_empty st) (_is_recording st)
    (_reverse st) (_overdubbing st) (_playback_speed st) (_quantize st)
    (_quantize_beats st) (_bpm st) (_samples_per_beat st)
    (_inv_buffer_length st) v (_undo_buffers st) (_undo_enabled st)
    (_undo_count st) (_undo_write_index st) (_undo_read_index st)
    (_undo_depth st) (_redo_depth st).
Definition set_undo_buffers (v : list (list float)) (st : t) : t :=
  mk
    (_buffer st) (_buffer_length st) (_loop_start st) (_loop_length st)
    (_play_head st) (_rec_head st) (_is_empty st) (_is_recording st)
    (_reverse st) (_overdubbing st) (_playback_speed st) (_quantize st)
    (_quantize_beats st) (_bpm st) (_samples_per_beat st)
    (_inv_buffer_length st) (_inv_crossfade_samples st) v
    (_undo_enabled st) (_undo_count st) (_undo_write_index st)
    (_undo_read_index st) (_undo_depth st) (_redo_depth st).
Definition set_undo_enabled (v : bool) (st : t) : t :=
  mk
    (_buffer st) (_buffer_length st) (_loop_start st) (_loop_length st)
    (_play_head st) (_rec_head st) (_is_empty st) (_is_recording st)
    (_reverse st) (_overdubbing st) (_playback_speed st) (_quantize st)
    (_quantize_beats st) (_bpm st) (_samples_per_beat st)
    (_inv_buffer_length st) (_inv_crossfade_samples st)
    (_undo_buffers st) v (_undo_count st) (_undo_write_index st)
    (_undo_read_index st) (_undo_depth st) (_redo_depth st).
Definition set_undo_count (v : Z) (st : t) : t :=
  mk
    (_buffer st) (_buffer_length st) (_loop_start st) (_loop_length st)
    (_play_head st) (_rec_head st) (_is_empty st) (_is_recording st)
    (_reverse st) (_overdubbing st) (_playback_speed st) (_quantize st)
    (_quantize_beats st) (_bpm st) (_samples_per_beat st)
    (_inv_buffer_length st) (_inv_crossfade_samples st)
    (_undo_buffers st) (_undo_enabled st) v (_undo_write_index st)
    (_undo_read_index st) (_undo_depth st) (_redo_depth st).
Definition set_undo_write_index (v : Z) (st : t) : t :=
  mk
    (_buffer st) (_buffer_length st) (_loop_start st) (_loop_length st)
    (_play_head st) (_rec_head st) (_is_empty st) (_is_recording st)
    (_reverse st) (_overdubbing st) (_playback_speed st) (_quantize st)
    (_quantize_beats st) (_bpm st) (_samples_per_beat st)
    (_inv_buffer_length st) (_inv_crossfade_samples st)
    (_undo_buffers st) (_undo_enabled st) (_undo_count st) v
    (_undo_read_index st) (_undo_depth st) (_redo_depth st).
Definition set_undo_read_index (v : Z) (st : t) : t :=
  mk
    (_buffer st) (_buffer_length st) (_loop_start st) (_loop_length st)
    (_play_head st) (_rec_head st) (_is_empty st) (_is_recording st)
    (_reverse st) (_overdubbing st) (_playback_speed st) (_quantize st)
    (_quantize_beats st) (_bpm st) (_samples_per_beat st)
    (_inv_buffer_length st) (_inv_crossfade_samples st)
    (_undo_buffers st) (_undo_enabled st) (_undo_count st)
    (_undo_write_index st) v (_undo_depth st) (_redo_depth st).
Definition set_undo_depth (v : Z) (st : t) : t :=
  mk
    (_buffer st) (_buffer_length st) (_loop_start st) (_loop_length st)
    (_play_head st) (_rec_head st) (_is_empty st) (_is_recording st)
    (_reverse st) (_overdubbing st) (_playback_speed st) (_quantize st)
    (_quantize_beats st) (_bpm st) (_samples_per_beat st)
    (_inv_buffer_length st) (_inv_crossfade_samples st)
    (_undo_buffers st) (_undo_enabled st) (_undo_count st)
    (_undo_write_index st) (_undo_read_index st) v (_redo_depth st).
Definition set_redo_depth (v : Z) (st : t) : t :=
  mk
    (_buffer st) (_buffer_length st) (_loop_start st) (_loop_length st)
    (_play_head st) (_rec_head st) (_is_empty st) (_is_recording st)
    (_reverse st) (_overdubbing st) (_playback_speed st) (_quantize st)
    (_quantize_beats st) (_bpm st) (_samples_per_beat st)
    (_inv_buffer_length st) (_inv_crossfade_samples st)
    (_undo_buffers st) (_undo_enabled st) (_undo_count st)
    (_undo_write_index st) (_undo_read_index st) (_undo_depth st) v.

(** *** Memory *)

Definition array_length (a : list float) : Z := Z.of_nat (length a).

(** [a[i]] as an rvalue and as the target of an assignment. *)
Definition array_read (a : list float) (i : Z) : option float :=
  if (0 <=? i) && (i <? array_length a) then a !! Z.to_nat i else None.

Definition array_write (a : list float) (i : Z) (v : float)
  : option (list float) :=
  if (0 <=? i) && (i <? array_length a) then Some (<[Z.to_nat i := v]> a)
  else None.

(** Number of whole floats covered by a byte count
    [sizeof(float) * n], itself a [size_t] product. *)
Definition floats_in_bytes (n : Z) : Z :=
  size_mul sizeof_float n / sizeof_float.

(** [memcpy(dst + doff, src + soff, bytes)] for a byte count covering
    [n] floats; source and destination are distinct arrays. *)
Definition memcpy (dst : list float) (doff : Z) (src : list float)
    (soff : Z) (n : Z) : option (list float) :=
  if (0 <=? doff) && (0 <=? soff) && (0 <=? n)
     && (doff + n <=? array_length dst) && (soff + n <=? array_length src)
  then
    Some (take (Z.to_nat doff) dst
          ++ take (Z.to_nat n) (drop (Z.to_nat soff) src)
          ++ drop (Z.to_nat (doff + n)) dst)
  else None.

(** [memset(dst, 0, bytes)] for a byte count covering [n] floats. *)
Definition memset_zero (dst : list float) (n : Z) : option (list float) :=
  if (0 <=? n) && (n <=? array_length dst) then
    Some (replicate (Z.to_nat n) fzero ++ drop (Z.to_nat n) dst)
  else None.

(** An object with static storage duration before [Init]: members
    without an initialiser are zero, null pointers are arrays without
    elements. *)
Definition zero_initialized : t :=
  mk [] 0 0 0 fzero 0 false false false false fzero
     false 4 (of_Q 120) 0 fzero fzero
     [[]; []; []] false 0 0 0 0 0.

(** Copy of [undo_bufs[0 .. count-1]] into [_undo_buffers]. *)
Fixpoint copy_undo_pointers (n : nat) (i : nat)
    (undo_bufs slots : list (list float)) : option (list (list float)) :=
  match n with
  | O => Some slots
  | S n' =>
      do p <- undo_bufs !! i;
      if (i <? length slots)%nat then
        copy_undo_pointers n' (S i) undo_bufs (<[i := p]> slots)
      else None
  end.

(** [undo_bufs = None] is the null pointer. *)
Definition Init (buf : list float) (length : Z)
    (undo_bufs : option (list (list float))) (num_undo_levels : Z)
    (st : t) : option t :=
  let st := set_buffer_length length (set_buffer buf st) in
  do st <-
    match undo_bufs with
    | Some bufs =>
        if 0 <? num_undo_levels then
          let count :=
            if num_undo_levels <=? MAX_UNDO_LEVELS then num_undo_levels
            else MAX_UNDO_LEVELS in
          do slots <-
            copy_undo_pointers (Z.to_nat count) 0 bufs (_undo_buffers st);
          Some (set_undo_buffers slots
                  (set_undo_count count (set_undo_enabled true st)))
        else Some (set_undo_count 0 (set_undo_enabled false st))
    | None => Some (set_undo_count 0 (set_undo_enabled false st))
    end;
  do zeroed <-
    memset_zero (_buffer st) (floats_in_bytes (_buffer_length st));
  let st := set_buffer zeroed st in
  let st :=
    set_inv_buffer_length (fdiv fone (of_size (_buffer_length st))) st in
  let st :=
    set_inv_crossfade_samples (fdiv fone (of_size CROSSFADE_SAMPLES)) st in
  Some (set_playback_speed fone (set_reverse false (set_is_empty true st))).

(** *** Private helpers *)

Definition SoftClip (x : float) : float :=
  fdiv (ftanh (fmul x (of_Q (7 # 10)))) (of_Q (7 # 10)).

Definition GetInterpolatedSample (position : float) (st : t)
  : option float :=
  do idx0 <- to_size position;
  do idx1 <- size_rem (size_add idx0 1) (_loop_length st);
  let frac := fsub position (of_size idx0) in
  do actual_idx0 <-
    size_rem (size_add (_loop_start st) idx0) (_buffer_length st);
  do actual_idx1 <-
    size_rem (size_add (_loop_start st) idx1) (_buffer_length st);
  do s0 <- array_read (_buffer st) actual_idx0;
  do s1 <- array_read (_buffer st) actual_idx1;
  Some (fadd (fmul s0 (fsub fone frac)) (fmul s1 frac)).

Definition crossfade_start_idx (i : Z) (st : t) : option Z :=
  size_rem (size_add (_loop_start st) i) (_buffer_length st).

Definition crossfade_end_idx (i : Z) (st : t) : option Z :=
  size_rem
    (size_add
       (size_sub (size_add (_loop_start st) (_loop_length st))
                 CROSSFADE_SAMPLES) i)
    (_buffer_length st).

Definition crossfade_fade (i : Z) (st : t) : float :=
  fmul (of_size i) (_inv_crossfade_samples st).

(** The value assigned to [_buffer[start_idx]]. *)
Definition crossfade_blend (a b fade : float) : float :=
  fadd (fmul a fade) (fmul b (fsub fone fade)).

(** Body of the loop of [ApplyCrossfade] for index [i]. *)
Definition crossfade_body (i : Z) (st : t) : option t :=
  let fade := crossfade_fade i st in
  do start_idx <- crossfade_start_idx i st;
  do end_idx <- crossfade_end_idx i st;
  do a <- array_read (_buffer st) start_idx;
  do b <- array_read (_buffer st) end_idx;
  do buf <- array_write (_buffer st) start_idx (crossfade_blend a b fade);
  Some (set_buffer buf st).

(** [for (size_t i = from; i < from + n; i++) body] *)
Fixpoint for_loop (n : nat) (from : Z) (body : Z -> t -> option t)
    (st : t) : option t :=
  match n with
  | O => Some st
  | S n' => do st' <- body from st; for_loop n' (from + 1) body st'
  end.

(** The values of [start_idx] and [end_idx] in iteration [i] when the
    capacity is not zero. *)
Definition start_index (st : t) (i : Z) : Z :=
  size_add (_loop_start st) i mod _buffer_length st.

Definition end_index (st : t) (i : Z) : Z :=
  size_add
    (size_sub (size_add (_loop_start st) (_loop_length st))
              CROSSFADE_SAMPLES) i
  mod _buffer_length st.

(** No iteration among [from .. from + n - 1] reads or writes a sample
    that an earlier one of them has written. *)
Definition no_overlap (st : t) (from : Z) (n : nat) : Prop :=
  forall i j, from <= j < i -> i < from + Z.of_nat n ->
    start_index st i <> start_index st j
    /\ end_index st i <> start_index st j.

(** The buffer after the first [i] iterations of the loop of
    [ApplyCrossfade]. *)
Definition crossfade_trace (st : t) (i : nat) : list float :=
  match for_loop i 0 crossfade_body st with
  | Some st' => _buffer st'
  | None => []
  end.

Definition ApplyCrossfade (st : t) : option t :=
  if _loop_length st <? size_mul CROSSFADE_SAMPLES 2 then Some st
  else for_loop (Z.to_nat CROSSFADE_SAMPLES) 0 crossfade_body st.

(** *** Undo history *)

Definition SaveUndoState (st : t) : option t :=
  if negb (_undo_enabled st) || (_undo_count st =? 0) then Some st
  else
    do slot <- _undo_buffers st !! Z.to_nat (_undo_write_index st);
    do slot' <-
      memcpy slot 0 (_buffer st) (_loop_start st)
             (floats_in_bytes (_loop_length st));
    let st :=
      set_undo_buffers
        (<[Z.to_nat (_undo_write_index st) := slot']> (_undo_buffers st))
        st in
    do w <- size_rem (size_add (_undo_write_index st) 1) (_undo_count st);
    let st := set_undo_write_index w st in
    let st := set_undo_read_index (_undo_write_index st) st in
    if _undo_depth st <? _undo_count st then
      Some (set_undo_depth (size_add (_undo_depth st) 1) st)
    else Some st.

Definition Undo (st : t) : option (bool * t) :=
  if negb (_undo_enabled st) || (_undo_depth st =? 0) then Some (false, st)
  else
    do r <-
      size_rem
        (size_add (size_sub (_undo_read_index st) 1) (_undo_count st))
        (_undo_count st);
    let st := set_undo_read_index r st in
    do slot <- _undo_buffers st !! Z.to_nat (_undo_read_index st);
    do buf <-
      memcpy (_buffer st) (_loop_start st) slot 0
             (floats_in_bytes (_loop_length st));
    let st := set_buffer buf st in
    let st := set_undo_depth (size_sub (_undo_depth st) 1) st in
    let st :=
      if _redo_depth st <? size_sub MAX_UNDO_LEVELS 1 then
        set_redo_depth (size_add (_redo_depth st) 1) st
      else st in
    Some (true, st).

Definition Redo (st : t) : option (bool * t) :=
  if negb (_undo_enabled st) || (_redo_depth st =? 0) then Some (false, st)
  else
    do r <- size_rem (size_add (_undo_read_index st) 1) (_undo_count st);
    let st := set_undo_read_index r st in
    do slot <- _undo_buffers st !! Z.to_nat (_undo_read_index st);
    do buf <-
      memcpy (_buffer st) (_loop_start st) slot 0
             (floats_in_bytes (_loop_length st));
    let st := set_buffer buf st in
    let st := set_undo_depth (size_add (_undo_depth st) 1) st in
    let st := set_redo_depth (size_sub (_redo_depth st) 1) st in
    Some (true, st).

Definition CanUndo (st : t) : bool :=
  _undo_enabled st && (0 <? _undo_depth st).

Definition CanRedo (st : t) : bool :=
  _undo_enabled st && (0 <? _redo_depth st).

(** *** State control *)

Definition StartRecording (st : t) : t :=
  set_overdubbing false
    (set_is_recording true
       (set_is_empty false (set_play_head fzero (set_rec_head 0 st)))).

Definition StopRecording (st : t) : option t :=
  ApplyCrossfade (set_is_recording false st).

Definition StartOverdub (st : t) : option t :=
  do st <- SaveUndoState st;
  Some (set_overdubbing true st).

Definition StopOverdub (st : t) : t := set_overdubbing false st.

Definition Restart (st : t) : t := set_play_head fzero st.

(** *** Loop manipulation *)

Definition SetLoop (loop_start loop_length : float) (st : t) : option t :=
  do s <- to_size (fmul loop_start (of_size (size_sub (_buffer_length st) 1)));
  let st := set_loop_start s st in
  do l <- to_size (fmul loop_length (of_size (_buffer_length st)));
  let st := set_loop_length l st in
  Some (if _loop_length st <? 1 then set_loop_length 1 st else st).

(** The value of [end_sample - start_sample + 1]. *)
Definition region_length (start_sample end_sample : Z) : Z :=
  size_add (size_sub end_sample start_sample) 1.

(** The condition of the first [if] of [SetLoopRegion]. *)
Definition region_clamped (start_sample end_sample : Z) : bool :=
  region_length start_sample end_sample <? 1.

Definition SetLoopRegion (start_sample end_sample : Z) (st : t) : t :=
  let st := set_loop_start start_sample st in
  let st := set_loop_length (region_length start_sample end_sample) st in
  let st :=
    if region_clamped start_sample end_sample then set_loop_length 1 st
    else st in
  if fleb (of_size (_loop_length st)) (_play_head st) then
    set_play_head fzero st
  else st.

Definition SetReverse (reverse : bool) (st : t) : t := set_reverse reverse st.

Definition SetPlaybackSpeed (speed : float) (st : t) : t :=
  set_playback_speed speed st.

Definition SetTempo (bpm sample_rate : float) (st : t) : option t :=
  if fleb bpm fzero || fleb sample_rate fzero then Some st
  else
    let st := set_bpm bpm st in
    do spb <- to_size (fdiv (fmul sample_rate (of_Q 60)) bpm);
    Some (set_samples_per_beat spb st).

Definition SetQuantize (enable : bool) (beats : Z) (st : t) : t :=
  set_quantize_beats (if 0 <? beats then beats else 4)
    (set_quantize enable st).

Definition QuantizeLength (recorded_length : Z) (st : t) : option Z :=
  if negb (_quantize st) || (_quantize_beats st =? 0) then
    Some recorded_length
  else
    do beat_length <- size_div recorded_length (_quantize_beats st);
    Some (size_mul beat_length (_quantize_beats st)).

(** The pair is [(out_start, out_end)]. *)
Definition QuantizeLoopRegion (start_sample end_sample : Z) (st : t)
  : option (Z * Z) :=
  if negb (_quantize st) || (_samples_per_beat st =? 0) then
    Some (start_sample, end_sample)
  else
    let spb := _samples_per_beat st in
    do half <- size_div spb 2;
    do start_beat <- size_div (size_add start_sample half) spb;
    let out_start := size_mul start_beat spb in
    let recorded_length :=
      if start_sample <? end_sample then size_sub end_sample start_sample
      else 0 in
    do length_in_beats <- size_div (size_add recorded_length half) spb;
    do length_in_beats <-
      (if length_in_beats <? _quantize_beats st then
         Some (_quantize_beats st)
       else
         do qhalf <- size_div (_quantize_beats st) 2;
         do groups <-
           size_div (size_add length_in_beats qhalf) (_quantize_beats st);
         Some (size_mul groups (_quantize_beats st)));
    Some (out_start, size_add out_start (size_mul length_in_beats spb)).

(** *** Queries *)

Definition GetPlayhead (st : t) : float :=
  fmul (fadd (of_size (_loop_start st)) (_play_head st))
       (_inv_buffer_length st).

Definition GetLoopPlayheadPosition (st : t) : option Z :=
  to_size (_play_head st).

(** *** Per-sample processing: the pair is (return value, new state) *)

Definition Process (inp : float) (st : t) : option (float * t) :=
  if _is_recording st then
    do buf <- array_write (_buffer st) (_rec_head st) inp;
    let st := set_buffer buf st in
    let st := set_rec_head (size_add (_rec_head st) 1) st in
    let st :=
      if _buffer_length st <=? _rec_head st then
        set_is_recording false (set_rec_head 0 st)
      else st in
    Some (inp, st)
  else if _is_empty st then Some (fzero, st)
  else
    do out <- GetInterpolatedSample (_play_head st) st;
    do '(out, st) <-
      (if _overdubbing st then
         do ph <- to_size (_play_head st);
         do index <-
           size_rem (size_add (_loop_start st) ph) (_buffer_length st);
         do old <- array_read (_buffer st) index;
         let mixed := SoftClip (fadd old inp) in
         do buf <- array_write (_buffer st) index mixed;
         Some (mixed, set_buffer buf st)
       else Some (out, st));
    let st :=
      if _reverse st then
        let st := set_play_head (fsub (_play_head st) (_playback_speed st)) st in
        if fltb (_play_head st) fzero then
          set_play_head (fadd (_play_head st) (of_size (_loop_length st))) st
        else st
      else
        let st := set_play_head (fadd (_play_head st) (_playback_speed st)) st in
        if fleb (of_size (_loop_length st)) (_play_head st) then
          set_play_head (fsub (_play_head st) (of_size (_loop_length st))) st
        else st in
    Some (out, st).

(** [Process] on each element of a block, in order; the outputs are
    collected. *)
Fixpoint ProcessBlock (ins : list float) (st : t)
  : option (list float * t) :=
  match ins with
  | [] => Some ([], st)
  | x :: ins' =>
      do '(y, st1) <- Process x st;
      do '(ys, st2) <- ProcessBlock ins' st1;
      Some (y :: ys, st2)
  end.

(** *** Call sequences *)

Inductive Call : Type :=
  | CallStartRecording
  | CallStopRecording
  | CallStartOverdub
  | CallStopOverdub
  | CallSetLoopRegion (start_sample end_sample : Z)
  | CallSetReverse (reverse : bool)
  | CallSetPlaybackSpeed (speed : float)
  | CallSaveUndoState
  | CallUndo
  | CallRedo
  | CallProcess (inp : float)
  | CallRestart
  | CallSetLoop (loop_start loop_length : float)
  | CallSetTempo (bpm sample_rate : float)
  | CallSetQuantize (enable : bool) (beats : Z).

Definition call (c : Call) (st : t) : option t :=
  match c with
  | CallStartRecording => Some (StartRecording st)
  | CallStopRecording => StopRecording st
  | CallStartOverdub => StartOverdub st
  | CallStopOverdub => Some (StopOverdub st)
  | CallSetLoopRegion s e => Some (SetLoopRegion s e st)
  | CallSetReverse r => Some (SetReverse r st)
  | CallSetPlaybackSpeed v => Some (SetPlaybackSpeed v st)
  | CallSaveUndoState => SaveUndoState st
  | CallUndo => do '(_, st') <- Undo st; Some st'
  | CallRedo => do '(_, st') <- Redo st; Some st'
  | CallProcess x => do '(_, st') <- Process x st; Some st'
  | CallRestart => Some (Restart st)
  | CallSetLoop s l => SetLoop s l st
  | CallSetTempo b r => SetTempo b r st
  | CallSetQuantize e b => Some (SetQuantize e b st)
  end.

Fixpoint calls (cs : list Call) (st : t) : option t :=
  match cs with
  | [] => Some st
  | c :: cs' => do st' <- call c st; calls cs' st'
  end.

(** The content of the loop region as [memcpy] sees it: [_loop_length]
    samples from [_buffer + _loop_start]. *)
Definition region_content (st : t) : list float :=
  take (Z.to_nat (_loop_length st))
       (drop (Z.to_nat (_loop_start st)) (_buffer st)).

(** *** Well-formed objects *)

(** [_buffer] points to [_buffer_length] samples, and there is at least
    one. *)
Definition buffer_ok (st : t) : Prop :=
  array_length (_buffer st) = _buffer_length st
  /\ 0 < _buffer_length st < SIZE_MOD.

(** While recording, the record head is an index of the buffer
    ([StartRecording] sets it to 0, [Process] stops at the capacity). *)
Definition rec_head_ok (st : t) : Prop :=
  0 <= _rec_head st < _buffer_length st.

Definition recording_ok (st : t) : Prop :=
  buffer_ok st /\ (_is_recording st = true -> rec_head_ok st).

(** The members the recording path reads, apart from the samples. *)
Definition same_recording_members (st st' : t) : Prop :=
  _buffer_length st' = _buffer_length st
  /\ array_length (_buffer st') = array_length (_buffer st)
  /\ _is_recording st' = _is_recording st
  /\ _rec_head st' = _rec_head st.
End Engine.
End OverdubLooper.

(** ** Call sequences of the state machine *)

Module MachineRuns.
Section Runs.
Import LooperStateMachine.
Context {U : Type} `{Hooks U}.

(** The three public operations that change the machine. *)
Inductive MachineCall : Type :=
  | MProcessEvent (event : LooperEvent)
  | MTransitionTo (new_state : LooperState)
  | MReset.

Definition machine_call (c : MachineCall) (m : t U) : t U :=
  match c with
  | MProcessEvent e => snd (ProcessEvent e m)
  | MTransitionTo s => snd (TransitionTo s m)
  | MReset => Reset m
  end.

Fixpoint machine_calls (cs : list MachineCall) (m : t U) : t U :=
  match cs with
  | [] => m
  | c :: cs' => machine_calls cs' (machine_call c m)
  end.
End Runs.
End MachineRuns.

(** ** Runs of the clock *)

Module ClockRuns.
Section Runs.
Import ClockSync.
Context `{Platform} `{FloatOps}.

(** [n] calls of [Tick]. *)
Definition Ticks (n : nat) (c : t) : t := Nat.iter n Tick c.

(** A beat length is set, and both counters are below their limits, as
    after the constructor or [Reset]. *)
Definition clock_ok (c : t) : Prop :=
  0 < _samples_per_beat c < SIZE_MOD
  /\ 0 <= _sample_counter c < _samples_per_beat c
  /\ 0 <= _beat_counter c < _time_sig_numerator c
  /\ _time_sig_numerator c < 256.
End Runs.
End ClockRuns.

(** ** Undo history: objects that share their history *)

Module History.
Section Members.
Import OverdubLooper.
Context `{Platform} `{FloatOps}.

(** [st'] has the undo members and the loop region of [st], and a buffer
    of the same size. *)
Definition same_history (st st' : t) : Prop :=
  _undo_buffers st' = _undo_buffers st
  /\ _undo_enabled st' = _undo_enabled st
  /\ _undo_count st' = _undo_count st
  /\ _undo_write_index st' = _undo_write_index st
  /\ _undo_read_index st' = _undo_read_index st
  /\ _undo_depth st' = _undo_depth st
  /\ _redo_depth st' = _redo_depth st
  /\ _loop_start st' = _loop_start st
  /\ _loop_length st' = _loop_length st
  /\ array_length (_buffer st') = array_length (_buffer st).

(** What [SaveUndoState] needs to copy the region into the slot under
    the write cursor. *)
Definition save_ready (st : t) : Prop :=
  _undo_enabled st = true
  /\ 0 <= _undo_write_index st < _undo_count st
  /\ _undo_count st <= MAX_UNDO_LEVELS
  /\ 0 <= _undo_depth st
  /\ 0 <= _loop_start st
  /\ 0 <= _loop_length st
  /\ sizeof_float * _loop_length st < SIZE_MOD
  /\ _loop_start st + _loop_length st <= array_length (_buffer st)
  /\ exists slot,
       _undo_buffers st !! Z.to_nat (_undo_write_index st) = Some slot
       /\ _loop_length st <= array_length slot.

(** [st'] has a buffer of the size of that of [st], with the same
    samples outside the loop region of [st]. *)
Definition outside_region_kept (st st' : t) : Prop :=
  array_length (_buffer st') = array_length (_buffer st)
  /\ forall k : nat,
       Z.of_nat k < _loop_start st
       \/ _loop_start st + _loop_length st <= Z.of_nat k ->
       _buffer st' !! k = _buffer st !! k.
End Members.
End History.

(** ** sampler_dsp_utils.h: the portable branch ([USE_CMSIS_DSP] is 0) *)

Module DSPUtils.
Section Utils.
Import OverdubLooper.
Context `{Platform} `{FloatOps}.

(** [for (size_t i = from; i < from + n; i++) body] on one array. *)
Fixpoint array_loop (n : nat) (from : Z)
    (body : Z -> list float -> option (list float)) (a : list float)
  : option (list float) :=
  match n with
  | O => Some a
  | S n' => do a' <- body from a; array_loop n' (from + 1) body a'
  end.

(** [dest] and [src] are distinct arrays. *)
Definition MixBuffersWithGain (dest src : list float) (length : Z)
    (gain : float) : option (list float) :=
  array_loop (Z.to_nat length) 0
    (fun i d =>
       do x <- array_read d i;
       do y <- array_read src i;
       array_write d i (fadd x (fmul y gain)))
    dest.

Definition CopyWithGain (dest src : list float) (length : Z)
    (gain : float) : option (list float) :=
  array_loop (Z.to_nat length) 0
    (fun i d =>
       do y <- array_read src i;
       array_write d i (fmul y gain))
    dest.

(** The factor of sample [i]. *)
Definition fade_factor (length i : Z) (fade_in : bool) : float :=
  let f := fdiv (of_size i) (of_size (size_sub length 1)) in
  if negb fade_in then fsub fone f else f.

Definition ApplyLinearFade (buffer : list float) (length : Z)
    (fade_in : bool) : option (list float) :=
  if length =? 0 then Some buffer
  else
    array_loop (Z.to_nat length) 0
      (fun i b =>
         do x <- array_read b i;
         array_write b i (fmul x (fade_factor length i fade_in)))
      buffer.

Definition ClearBuffer (buffer : list float) (length : Z)
  : option (list float) :=
  memset_zero buffer (size_mul length sizeof_float / sizeof_float).

(** [dest] is distinct from [bufferA] and [bufferB]. *)
Definition Crossfade (bufferA bufferB dest : list float) (length : Z)
  : option (list float) :=
  if length =? 0 then Some dest
  else
    array_loop (Z.to_nat length) 0
      (fun i d =>
         let fade := fdiv (of_size i) (of_size (size_sub length 1)) in
         do a <- array_read bufferA i;
         do b <- array_read bufferB i;
         array_write d i (fadd (fmul a (fsub fone fade)) (fmul b fade)))
      dest.

Definition LinearInterpolate (buffer : list float) (length : Z)
    (position : float) : option float :=
  if fleb (of_size (size_sub length 1)) position then
    array_read buffer (size_sub length 1)
  else if fleb position fzero then array_read buffer 0
  else
    do index <- to_size position;
    let frac := fsub position (of_size index) in
    do x0 <- array_read buffer index;
    do x1 <- array_read buffer (size_add index 1);
    Some (fadd x0 (fmul frac (fsub x1 x0))).
End Utils.
End DSPUtils.

(** ** sampler_effects.h *)

Inductive FilterType : Type :=
  | FILTER_NONE
  | FILTER_LOWPASS
  | FILTER_HIGHPASS
  | FILTER_BANDPASS.

Definition FilterType_eqb (a b : FilterType) : bool :=
  match a, b with
  | FILTER_NONE, FILTER_NONE | FILTER_LOWPASS, FILTER_LOWPASS
  | FILTER_HIGHPASS, FILTER_HIGHPASS | FILTER_BANDPASS, FILTER_BANDPASS =>
      true
  | _, _ => false
  end.

Module LoopEffects.
Section Effects.
Import OverdubLooper.
Context `{Platform} `{FloatOps}.

Record t : Type := mk {
  _pitch_semitones : float;
  _filter_type : FilterType;
  _filter_cutoff : float
}.

(** Constructor. *)
Definition init : t := mk fzero FILTER_NONE (of_Q 1000).

(** The playhead is passed by reference and not assigned. *)
Definition ProcessReverse (buffer : list float) (playhead : float)
    (length : Z) : option float :=
  if length =? 0 then Some fzero
  else
    do p <- to_size playhead;
    let reversed_pos := size_sub (size_sub length 1) p in
    let reversed_pos := if length <=? reversed_pos then 0 else reversed_pos in
    array_read buffer reversed_pos.

Definition SetFilterType (type : FilterType) (e : t) : t :=
  mk (_pitch_semitones e) type (_filter_cutoff e).

Definition SetFilterCutoff (cutoff_hz : float) (e : t) : t :=
  mk (_pitch_semitones e) (_filter_type e) cutoff_hz.

(** One step of the low-pass loop. *)
Definition lowpass_body (i : Z) (b : list float) : option (list float) :=
  let alpha := of_Q (1 # 10) in
  do x <- array_read b i;
  do prev <- array_read b (size_sub i 1);
  array_write b i (fadd (fmul x alpha) (fmul prev (fsub fone alpha))).

(** The loop runs for [i = 1 .. length - 1]. *)
Definition ApplyFilter (buffer : list float) (length : Z)
    (type : FilterType) : option (list float) :=
  if FilterType_eqb type FILTER_NONE || (length =? 0) then Some buffer
  else if FilterType_eqb type FILTER_LOWPASS then
    DSPUtils.array_loop (Z.to_nat (length - 1)) 1 lowpass_body buffer
  else Some buffer.
End Effects.
End LoopEffects.

(** ** SAMPLER_CNA.ino: the colour macro *)

Module Sketch.
(** [COLOR(r, g, b)] on [int] operands that hold 8-bit channels; no
    operation leaves the range of [int]. *)
Definition COLOR (r g b : Z) : Z :=
  Z.lor (Z.lor (Z.shiftl (Z.land r 0xF8) 8) (Z.shiftl (Z.land g 0xFC) 3))
        (Z.shiftr b 3).
End Sketch.

(** ** Concrete parameters *)

(** The Daisy Seed: a 32-bit [size_t]. *)
Definition daisy : Platform :=
  {| size_bits := 32; size_bits_min := ltac:(lia) |}.

(** Exact rational arithmetic.  On the inputs used below every operation
    of the source yields a value binary32 represents exactly or rounds
    without changing the integer part.  [ftanh] is the Pade approximant
    x (27 + x^2) / (27 + 9 x^2); no statement below depends on it. *)
Definition exact_arith : FloatOps :=
  {| float := Q;
     of_Q := fun q => q;
     fadd := Qplus;
     fsub := Qminus;
     fmul := Qmult;
     fdiv := Qdiv;
     fleb := Qle_bool;
     fltb := fun x y => negb (Qle_bool y x);
     ftrunc := fun q => Some (Z.quot (Qnum q) (Z.pos (Qden q)));
     ftanh := fun x => (x * (27 + x * x) / (27 + 9 * (x * x)))%Q;
     fleb_zero_zero := eq_refl;
     fleb_pos_zero := fun n Hn =>
       proj2 (Z.leb_gt (Qnum (inject_Z n) * QDen 0)
                       (Qnum 0 * QDen (inject_Z n)))
             ltac:(simpl; lia);
     fltb_fleb := fun x y Hlt => proj1 (negb_true_iff _) Hlt |}.

Module Fixtures.
Import OverdubLooper.
#[local] Existing Instance daisy.
#[local] Existing Instance exact_arith.

(** An engine set up on [n] samples of memory with three undo buffers
    of the same size, as the sketch does at start-up. *)
Definition engine (n : nat) : option t :=
  Init (replicate n 1%Q) (Z.of_nat n)
       (Some (replicate 3 (replicate n 0%Q))) 3 zero_initialized.

Definition engine_state (n : nat) : t :=
  default zero_initialized (engine n).

(** The same with [num_undo_levels = 2]. *)
Definition engine_two_levels (n : nat) : t :=
  default zero_initialized
    (Init (replicate n 1%Q) (Z.of_nat n)
          (Some (replicate 3 (replicate n 0%Q))) 2 zero_initialized).

(** A full take: recording stops by itself on the last sample. *)
Definition record_take (samples : list Q) : list Call :=
  CallStartRecording :: map CallProcess samples.

(** Three saves, each followed by a new take of the one-sample loop. *)
Definition history_script : list Call :=
  record_take [1%Q] ++ [CallSetLoopRegion 0 0; CallSaveUndoState]
  ++ record_take [2%Q] ++ [CallSaveUndoState]
  ++ record_take [3%Q] ++ [CallSaveUndoState]
  ++ record_take [4%Q].

(** Three saves, two undos, then a save on the new branch. *)
Definition branch_script : list Call :=
  history_script
  ++ [CallUndo; CallUndo; CallSaveUndoState]
  ++ record_take [5%Q].

Definition depth_script : list Call :=
  record_take [1%Q]
  ++ [CallSetLoopRegion 0 0; CallSaveUndoState; CallSaveUndoState;
      CallSaveUndoState; CallUndo; CallSaveUndoState; CallRedo].

Definition redo_depth_script : list Call :=
  record_take [1%Q]
  ++ [CallSetLoopRegion 0 0; CallSaveUndoState; CallSaveUndoState;
      CallUndo; CallUndo].

(** Reverse playback of a one-sample loop at speed 3. *)
Definition reverse_script : list Call :=
  record_take [5%Q; 5%Q; 5%Q; 5%Q]
  ++ [CallSetLoopRegion 0 0; CallSetReverse true;
      CallSetPlaybackSpeed 3%Q; CallProcess 0%Q].

(** Quantisation on, 120 BPM at 48 kHz: 24000 samples per beat. *)
Definition quantized_engine (beats : Z) : t :=
  default zero_initialized
    (SetTempo 120%Q 48000%Q (SetQuantize true beats zero_initialized)).

(** A 300-sample loop holding the recorded ramp 0, 1, ..., 299. *)
Definition ramp_engine : t :=
  Eval vm_compute in
    default zero_initialized
      (calls (record_take (map inject_Z (seqZ 0 300))
              ++ [CallSetLoopRegion 0 299; CallStartRecording])
             (engine_state 300)).

(** The clock as constructed. *)
Definition clock : ClockSync.t :=
  default (ClockSync.mk 0%Q 0 0 0%Q 0 0 0 0) ClockSync.init.
End Fixtures.

(** Further objects for the concrete cases. *)
Module Samples.
Import OverdubLooper Fixtures.
#[local] Existing Instance daisy.
#[local] Existing Instance exact_arith.

(** A clock with four samples per beat: 120 BPM at 8 Hz. *)
Definition slow_clock : ClockSync.t :=
  Eval vm_compute in default clock (ClockSync.SetSampleRate 8%Q clock).

(** A four-sample loop holding the take 1, 2, 3, 4, ready for playback. *)
Definition loop_engine : t :=
  Eval vm_compute in
    default zero_initialized
      (calls (record_take [1%Q; 2%Q; 3%Q; 4%Q] ++ [CallSetLoopRegion 0 3])
             (engine_state 4)).

(** An engine set up without undo buffers. *)
Definition plain_engine : t :=
  Eval vm_compute in
    default zero_initialized
      (Init (replicate 4 1%Q) 4 None 0 zero_initialized).




End Samples.

(** * Properties *)

(** ** Arithmetic of [size_t] *)

Section SizeFacts.
Context `{Platform}.

Lemma SIZE_MOD_min : 65536 <= SIZE_MOD.
Proof.
  unfold SIZE_MOD. pose proof size_bits_min as Hw.
  change 65536 with (2 ^ 16). apply Z.pow_le_mono_r; lia.
Qed.

Lemma SIZE_MOD_ge_2 : 2 <= SIZE_MOD.
Proof. pose proof SIZE_MOD_min. lia. Qed.

Lemma wrap_sub_l a b : wrap (wrap a - b) = wrap (a - b).
Proof. unfold wrap. apply Zminus_mod_idemp_l. Qed.

Lemma wrap_range z : 0 <= wrap z < SIZE_MOD.
Proof. unfold wrap. apply Z.mod_pos_bound. pose proof SIZE_MOD_ge_2. lia. Qed.

Lemma wrap_small z : 0 <= z < SIZE_MOD -> wrap z = z.
Proof. intros Hz. unfold wrap. by apply Z.mod_small. Qed.

Lemma wrap_add_l a b : wrap (wrap a + b) = wrap (a + b).
Proof. unfold wrap. apply Zplus_mod_idemp_l. Qed.

Lemma wrap_neg z : - SIZE_MOD <= z < 0 -> wrap z = z + SIZE_MOD.
Proof.
  intros Hz. unfold wrap. pose proof SIZE_MOD_ge_2.
  rewrite <- (Z.mod_add z 1 SIZE_MOD) by lia.
  rewrite Z.mod_small; lia.
Qed.

Lemma wrap_over z : SIZE_MOD <= z < 2 * SIZE_MOD -> wrap z = z - SIZE_MOD.
Proof.
  intros Hz. unfold wrap. pose proof SIZE_MOD_ge_2.
  rewrite <- (Z.mod_add z (-1) SIZE_MOD) by lia.
  rewrite Z.mod_small; lia.
Qed.
End SizeFacts.

(** ** State machine *)

Section MachineFacts.
Import LooperStateMachine.
Context {U : Type} `{Hooks U}.

(** C2.  [ProcessEvent] follows the event table of section 4.1: on a
    listed (state, event) pair the machine moves to the listed state
    (the old state becomes the previous one, [OnExit] of the old and
    [OnEnter] of the new state run in that order) and the call returns
    true; on every other pair the machine is unchanged and the call
    returns false. *)
Theorem ProcessEvent_event_table (m : t U) (e : LooperEvent) :
  ProcessEvent e m =
    match event_table (_current_state m) e with
    | Some next =>
        (true,
         mk next (_current_state m)
            (OnEnter next (OnExit (_current_state m) (derived m))))
    | None => (false, m)
    end.
Proof.
  destruct m as [cur prev u].
  destruct cur, e; reflexivity.
Qed.
End MachineFacts.

(** ** Loop region *)

Section RegionFacts.
Import OverdubLooper.
Context `{Platform} `{FloatOps}.

Lemma region_length_wrap s e : region_length s e = wrap (e - s + 1).
Proof. unfold region_length, size_add, size_sub. apply wrap_add_l. Qed.

Lemma SetLoopRegion_loop_start s e st :
  _loop_start (SetLoopRegion s e st) = s.
Proof.
  unfold SetLoopRegion.
  destruct (region_clamped s e); cbn;
    match goal with |- context [fleb ?a ?b] => destruct (fleb a b) end;
    reflexivity.
Qed.

Lemma SetLoopRegion_loop_length s e st :
  _loop_length (SetLoopRegion s e st) =
    if region_clamped s e then 1 else region_length s e.
Proof.
  unfold SetLoopRegion.
  destruct (region_clamped s e); cbn;
    match goal with |- context [fleb ?a ?b] => destruct (fleb a b) end;
    reflexivity.
Qed.

Lemma SetLoopRegion_play_head s e st :
  _play_head (SetLoopRegion s e st) =
    if fleb (of_size (_loop_length (SetLoopRegion s e st))) (_play_head st)
    then fzero else _play_head st.
Proof.
  rewrite SetLoopRegion_loop_length. unfold SetLoopRegion.
  destruct (region_clamped s e); cbn;
    match goal with |- context [fleb ?a ?b] => destruct (fleb a b) end;
    reflexivity.
Qed.

Lemma SetLoopRegion_buffer_length s e st :
  _buffer_length (SetLoopRegion s e st) = _buffer_length st.
Proof.
  unfold SetLoopRegion.
  destruct (region_clamped s e); cbn;
    match goal with |- context [fleb ?a ?b] => destruct (fleb a b) end;
    reflexivity.
Qed.

(** The clamp fires exactly when the [size_t] sum [end + 1] is [start]. *)
Lemma region_clamped_iff s e :
  is_size s -> is_size e ->
  region_clamped s e = true <-> size_add e 1 = s.
Proof.
  unfold is_size. intros Hs He. pose proof SIZE_MOD_ge_2 as HM.
  unfold region_clamped. rewrite region_length_wrap, Z.ltb_lt.
  unfold size_add.
  destruct (Z_lt_ge_dec (e - s + 1) 0) as [Hneg | Hpos].
  - rewrite (wrap_neg (e - s + 1)) by lia.
    rewrite (wrap_small (e + 1)) by lia. lia.
  - destruct (Z_lt_ge_dec (e - s + 1) SIZE_MOD) as [Hlt | Hge].
    + rewrite (wrap_small (e - s + 1)) by lia.
      destruct (Z_lt_ge_dec (e + 1) SIZE_MOD).
      * rewrite (wrap_small (e + 1)) by lia. lia.
      * rewrite (wrap_over (e + 1)) by lia. lia.
    + rewrite (wrap_over (e - s + 1)) by lia.
      rewrite (wrap_over (e + 1)) by lia. lia.
Qed.

(** C3 (amended).  For [start <= end] whose inclusive length
    [end - start + 1] is a [size_t] value, [SetLoopRegion] stores that
    length; afterwards the playhead is not at or beyond the length (it
    is reset to 0 exactly when it was), and it is non-negative whenever
    it was non-negative before the call. *)
Theorem SetLoopRegion_region (st : t) (s e : Z) :
  is_size s -> is_size e -> s <= e -> e - s + 1 < SIZE_MOD ->
  let st' := SetLoopRegion s e st in
  _loop_start st' = s
  /\ _loop_length st' = e - s + 1
  /\ fleb (of_size (_loop_length st')) (_play_head st') = false
  /\ _play_head st' =
       (if fleb (of_size (e - s + 1)) (_play_head st) then fzero
        else _play_head st)
  /\ (fleb fzero (_play_head st) = true ->
      fleb fzero (_play_head st') = true).
Proof.
  intros Hs He Hse Hfit st'. unfold is_size in Hs, He.
  assert (Hlen : _loop_length st' = e - s + 1).
  { subst st'. rewrite SetLoopRegion_loop_length.
    unfold region_clamped. rewrite region_length_wrap.
    rewrite wrap_small by lia.
    destruct (e - s + 1 <? 1) eqn:Hc; [apply Z.ltb_lt in Hc; lia | done]. }
  assert (Hph := SetLoopRegion_play_head s e st). fold st' in Hph.
  rewrite Hlen in Hph.
  split; [apply SetLoopRegion_loop_start |].
  split; [exact Hlen |].
  rewrite Hlen, Hph.
  destruct (fleb (of_size (e - s + 1)) (_play_head st)) eqn:Hcmp.
  - split; [apply fleb_pos_zero; lia |].
    split; [done |]. intros _. apply fleb_zero_zero.
  - done.
Qed.

(** C10 (amended).  For [end + 1 < start] the stored length is
    [(end - start + 1) mod 2^size_bits], that is
    [2^size_bits - (start - end - 1)]; it exceeds a capacity [cap]
    exactly when [cap + (start - end - 1) < 2^size_bits], in particular
    when [start <= cap <= 2^size_bits / 2].  The clamp to 1 is taken
    exactly when the [size_t] sum [end + 1] equals [start]; among
    [end < start] that is the single case [end + 1 = start]. *)
Theorem SetLoopRegion_underflow (st : t) (s e : Z) :
  is_size s -> is_size e ->
  (region_clamped s e = true <-> size_add e 1 = s)
  /\ (e < s -> (region_clamped s e = true <-> e + 1 = s))
  /\ (e + 1 < s ->
      let len := _loop_length (SetLoopRegion s e st) in
      len = (e - s + 1) mod SIZE_MOD
      /\ len = SIZE_MOD - (s - e - 1)
      /\ (forall cap, cap < len <-> cap + (s - e - 1) < SIZE_MOD)
      /\ (forall cap, s <= cap -> 2 * cap <= SIZE_MOD -> cap < len)).
Proof.
  intros Hs He. pose proof SIZE_MOD_ge_2 as HM.
  pose proof (region_clamped_iff s e Hs He) as Hclamp.
  unfold is_size in Hs, He.
  split; [exact Hclamp |].
  split.
  - intros Hlt. rewrite Hclamp. unfold size_add.
    rewrite wrap_small by lia. done.
  - intros Hlt len.
    assert (Hlen : len = SIZE_MOD - (s - e - 1)).
    { subst len. rewrite SetLoopRegion_loop_length.
      destruct (region_clamped s e) eqn:Hc.
      - apply (region_clamped_iff s e Hs He) in Hc. unfold size_add in Hc.
        rewrite wrap_small in Hc by lia. lia.
      - rewrite region_length_wrap, wrap_neg by lia. lia. }
    split.
    { rewrite Hlen. fold (wrap (e - s + 1)). rewrite wrap_neg by lia. lia. }
    split; [exact Hlen |].
    split; intros cap; lia.
Qed.
End RegionFacts.

(** ** Quantisation *)

Section QuantizeFacts.
Import OverdubLooper.
Context `{Platform} `{FloatOps}.

Lemma size_div_Some a b : b <> 0 -> size_div a b = Some (a / b).
Proof.
  intros Hb. unfold size_div.
  destruct (b =? 0) eqn:E; [apply Z.eqb_eq in E; lia | done].
Qed.

Lemma size_rem_Some a b : b <> 0 -> size_rem a b = Some (a mod b).
Proof.
  intros Hb. unfold size_rem.
  destruct (b =? 0) eqn:E; [apply Z.eqb_eq in E; lia | done].
Qed.

(** Rounding to the nearest multiple, ties upwards. *)
Lemma round_half_up_nearest x d :
  0 <= x -> 0 < d ->
  let r := (x + d / 2) / d * d in
  r mod d = 0 /\ 2 * Z.abs (r - x) <= d /\ 0 <= r <= x + d / 2.
Proof.
  intros Hx Hd r. subst r.
  split; [apply Z.mod_mul; lia |].
  pose proof (Z.div_mod (x + d / 2) d ltac:(lia)) as E.
  pose proof (Z.mod_pos_bound (x + d / 2) d Hd) as B.
  pose proof (Z.div_mod d 2 ltac:(lia)) as E2.
  pose proof (Z.mod_pos_bound d 2 ltac:(lia)) as B2.
  assert (Q : 0 <= (x + d / 2) / d).
  { apply Z.div_pos; [|lia]. pose proof (Z.div_pos d 2). lia. }
  revert E B E2 B2 Q.
  generalize ((x + d / 2) mod d) as m, ((x + d / 2) / d) as q.
  generalize (d mod 2) as m2, (d / 2) as h.
  intros m2 h m q E B E2 B2 Q.
  split; nia.
Qed.

(** C6 (amended).  With quantisation off or no beat length the inputs
    are returned.  With quantisation on and a beat length, and when no
    [size_t] operation of the computation overflows, the returned start
    is a multiple of [_samples_per_beat] nearest to [start_sample], and
    the returned length is a positive multiple of
    [_quantize_beats * _samples_per_beat]. *)
Theorem QuantizeLoopRegion_spec (st : t) (start_sample end_sample : Z) :
  is_size start_sample -> is_size end_sample ->
  is_size (_samples_per_beat st) -> 1 <= _quantize_beats st ->
  (_quantize st = false \/ _samples_per_beat st = 0 ->
   QuantizeLoopRegion start_sample end_sample st
     = Some (start_sample, end_sample))
  /\ (_quantize st = true -> 0 < _samples_per_beat st ->
      let spb := _samples_per_beat st in
      let beats := _quantize_beats st in
      let recorded :=
        if start_sample <? end_sample then end_sample - start_sample
        else 0 in
      let rounded := (recorded + spb / 2) / spb in
      let length_in_beats :=
        if rounded <? beats then beats
        else (rounded + beats / 2) / beats * beats in
      let out_start := (start_sample + spb / 2) / spb * spb in
      start_sample + spb / 2 < SIZE_MOD ->
      recorded + spb / 2 < SIZE_MOD ->
      rounded + beats / 2 < SIZE_MOD ->
      out_start + length_in_beats * spb < SIZE_MOD ->
      exists out_end,
        QuantizeLoopRegion start_sample end_sample st
          = Some (out_start, out_end)
        /\ out_start mod spb = 0
        /\ 2 * Z.abs (out_start - start_sample) <= spb
        /\ out_end - out_start = length_in_beats * spb
        /\ (exists k, 1 <= k /\ out_end - out_start = k * (beats * spb))).
Proof.
  intros Hs He Hspb Hbeats. unfold is_size in Hs, He, Hspb.
  pose proof SIZE_MOD_ge_2 as HM.
  split.
  { intros Hoff. unfold QuantizeLoopRegion.
    destruct Hoff as [-> | ->]; [done |].
    rewrite Z.eqb_refl, orb_true_r. done. }
  intros Hq Hpos spb beats recorded rounded length_in_beats out_start
         F1 F2 F3 F4.
  assert (Hrec : 0 <= recorded).
  { subst recorded. destruct (start_sample <? end_sample) eqn:E;
      [apply Z.ltb_lt in E |]; lia. }
  destruct (round_half_up_nearest start_sample spb ltac:(lia) Hpos)
    as (Hmul & Hnear & Hlo & Hhi).
  fold out_start in Hmul, Hnear, Hlo, Hhi.
  assert (Hrounded : 0 <= rounded).
  { subst rounded. apply Z.div_pos; [|lia].
    pose proof (Z.div_pos spb 2). lia. }
  assert (Hhalf : 0 <= spb / 2) by (apply Z.div_pos; lia).
  assert (Hqhalf : 0 <= beats / 2) by (apply Z.div_pos; lia).
  assert (Hlib : exists k, 1 <= k /\ length_in_beats = k * beats).
  { subst length_in_beats. destruct (rounded <? beats) eqn:E.
    - exists 1. lia.
    - apply Z.ltb_ge in E. exists ((rounded + beats / 2) / beats).
      split; [|done].
      assert (1 = beats / beats) as -> by (symmetry; apply Z.div_same; lia).
      apply Z.div_le_mono; lia. }
  destruct Hlib as (k & Hk & Hlib).
  assert (Hlen_nonneg : 0 <= length_in_beats * spb) by nia.
  assert (Hlen_lt : length_in_beats < SIZE_MOD) by nia.
  exists (out_start + length_in_beats * spb).
  split.
  { unfold QuantizeLoopRegion. fold spb beats.
    rewrite Hq. cbn [negb orb].
    destruct (spb =? 0) eqn:E; [apply Z.eqb_eq in E; lia | clear E].
    assert (A1 : size_add start_sample (spb / 2) = start_sample + spb / 2)
      by (unfold size_add; apply wrap_small; lia).
    assert (A2 : size_mul ((start_sample + spb / 2) / spb) spb = out_start)
      by (unfold size_mul; apply wrap_small; lia).
    assert (A3 : (if start_sample <? end_sample
                  then size_sub end_sample start_sample else 0) = recorded).
    { subst recorded. destruct (start_sample <? end_sample) eqn:E; [|done].
      apply Z.ltb_lt in E. unfold size_sub. apply wrap_small. lia. }
    assert (A4 : size_add recorded (spb / 2) = recorded + spb / 2)
      by (unfold size_add; apply wrap_small; lia).
    assert (A5 : (if rounded <? beats then Some beats
                  else do qhalf <- size_div beats 2;
                       do groups <- size_div (size_add rounded qhalf) beats;
                       Some (size_mul groups beats))
                 = Some length_in_beats).
    { subst length_in_beats. destruct (rounded <? beats) eqn:E; [done |].
      rewrite (size_div_Some beats 2) by lia.
      rewrite (size_div_Some _ beats) by lia.
      unfold size_add. rewrite (wrap_small (rounded + beats / 2)) by lia.
      unfold size_mul. rewrite wrap_small; [done |].
      split; [|lia].
      apply Z.mul_nonneg_nonneg; [apply Z.div_pos|]; lia. }
    rewrite (size_div_Some spb 2) by lia. cbv beta iota.
    rewrite A1, (size_div_Some _ spb) by lia. cbv beta iota.
    rewrite A2, A3, A4, (size_div_Some _ spb) by lia. cbv beta iota.
    fold rounded. rewrite A5.
    unfold size_mul, size_add.
    rewrite (wrap_small (length_in_beats * spb)) by lia.
    rewrite wrap_small by lia. done. }
  split; [exact Hmul |].
  split; [exact Hnear |].
  split; [lia |].
  exists k. split; [exact Hk |]. rewrite Hlib. lia.
Qed.
End QuantizeFacts.

(** ** Clock *)

Section ClockFacts.
Import ClockSync.
Context `{Platform} `{FloatOps}.

Lemma CalculateTimings_Some (c : t) (z : Z) :
  ftrunc (fdiv (fmul (_sample_rate c) (of_Q 60)) (_bpm c)) = Some z ->
  is_size z ->
  CalculateTimings c =
    Some (mk (_bpm c) (_time_sig_numerator c) (_time_sig_denominator c)
             (_sample_rate c) z ((z * _time_sig_numerator c) mod SIZE_MOD)
             (_sample_counter c) (_beat_counter c)).
Proof.
  intros Hz [Hlo Hhi]. unfold CalculateTimings, to_size. rewrite Hz.
  apply Z.leb_le in Hlo. apply Z.ltb_lt in Hhi. rewrite Hlo, Hhi. done.
Qed.

(** C7 (amended).  Each setter leaves the whole clock unchanged on a
    non-positive argument.  On a positive argument it stores the
    argument and recomputes [_samples_per_beat] as the quotient
    [_sample_rate * 60 / _bpm] truncated toward zero by the conversion
    to [size_t] (whenever that integer [z] is a [size_t] value), and
    [_samples_per_bar] as the [size_t] product of [_samples_per_beat]
    and the numerator. *)
Theorem setters_recompute (c : t) :
  (forall bpm, fleb bpm fzero = true -> SetBPM bpm c = Some c)
  /\ (forall sample_rate,
        fleb sample_rate fzero = true ->
        SetSampleRate sample_rate c = Some c)
  /\ (forall numerator denominator,
        numerator = 0 \/ denominator = 0 ->
        SetTimeSignature numerator denominator c = Some c)
  /\ (forall bpm z,
        fltb fzero bpm = true ->
        ftrunc (fdiv (fmul (_sample_rate c) (of_Q 60)) bpm) = Some z ->
        is_size z ->
        SetBPM bpm c =
          Some (mk bpm (_time_sig_numerator c) (_time_sig_denominator c)
                   (_sample_rate c) z
                   ((z * _time_sig_numerator c) mod SIZE_MOD)
                   (_sample_counter c) (_beat_counter c)))
  /\ (forall sample_rate z,
        fltb fzero sample_rate = true ->
        ftrunc (fdiv (fmul sample_rate (of_Q 60)) (_bpm c)) = Some z ->
        is_size z ->
        SetSampleRate sample_rate c =
          Some (mk (_bpm c) (_time_sig_numerator c)
                   (_time_sig_denominator c) sample_rate z
                   ((z * _time_sig_numerator c) mod SIZE_MOD)
                   (_sample_counter c) (_beat_counter c)))
  /\ (forall numerator denominator z,
        0 < numerator -> 0 < denominator ->
        ftrunc (fdiv (fmul (_sample_rate c) (of_Q 60)) (_bpm c)) = Some z ->
        is_size z ->
        SetTimeSignature numerator denominator c =
          Some (mk (_bpm c) numerator denominator (_sample_rate c) z
                   ((z * numerator) mod SIZE_MOD)
                   (_sample_counter c) (_beat_counter c))).
Proof.
  repeat split.
  - intros bpm Hle. unfold SetBPM. by rewrite Hle.
  - intros sr Hle. unfold SetSampleRate. by rewrite Hle.
  - intros n d [-> | ->]; unfold SetTimeSignature;
      [done | by rewrite Z.eqb_refl, orb_true_r].
  - intros bpm z Hpos Hz Hsz. unfold SetBPM.
    rewrite (fltb_fleb _ _ Hpos).
    by rewrite (CalculateTimings_Some _ z).
  - intros sr z Hpos Hz Hsz. unfold SetSampleRate.
    rewrite (fltb_fleb _ _ Hpos).
    by rewrite (CalculateTimings_Some _ z).
  - intros n d z Hn Hd Hz Hsz. unfold SetTimeSignature.
    destruct (n =? 0) eqn:En; [apply Z.eqb_eq in En; lia |].
    destruct (d =? 0) eqn:Ed; [apply Z.eqb_eq in Ed; lia |].
    by rewrite (CalculateTimings_Some _ z).
Qed.
End ClockFacts.

(** ** Recording *)

Section RecordingFacts.
Import OverdubLooper.
Context `{Platform} `{FloatOps}.

Lemma array_write_length a i v a' :
  array_write a i v = Some a' -> array_length a' = array_length a.
Proof.
  unfold array_write, array_length. intros Hw.
  destruct (_ && _); [|done]. injection Hw as <-. by rewrite length_insert.
Qed.

Lemma array_write_Some a i v :
  0 <= i < array_length a ->
  array_write a i v = Some (<[Z.to_nat i := v]> a).
Proof.
  intros [Hlo Hhi]. unfold array_write.
  apply Z.leb_le in Hlo. apply Z.ltb_lt in Hhi. by rewrite Hlo, Hhi.
Qed.

Lemma array_read_Some a i :
  0 <= i < array_length a ->
  exists v, array_read a i = Some v /\ a !! Z.to_nat i = Some v.
Proof.
  intros [Hlo Hhi]. unfold array_read, array_length in *.
  destruct (lookup_lt_is_Some_2 a (Z.to_nat i) ltac:(lia)) as [v Hv].
  exists v. apply Z.leb_le in Hlo. apply Z.ltb_lt in Hhi.
  by rewrite Hlo, Hhi.
Qed.

(** One call of [Process] on the recording path. *)
Lemma Process_recording_step (x : float) (st : t) :
  buffer_ok st -> _is_recording st = true -> rec_head_ok st ->
  exists st1,
    Process x st = Some (x, st1)
    /\ _buffer st1 = <[Z.to_nat (_rec_head st) := x]> (_buffer st)
    /\ _buffer_length st1 = _buffer_length st
    /\ _is_recording st1 = (_rec_head st + 1 <? _buffer_length st)
    /\ _rec_head st1 =
         (if _rec_head st + 1 <? _buffer_length st then _rec_head st + 1
          else 0).
Proof.
  intros [Hlen Hcap] Hrec Hhead. unfold rec_head_ok in Hhead.
  unfold Process. rewrite Hrec.
  rewrite array_write_Some by lia. cbn.
  unfold size_add. rewrite wrap_small by lia.
  rewrite Z.leb_antisym.
  destruct (_rec_head st + 1 <? _buffer_length st); cbn;
    eexists; (split; [reflexivity |]); cbn; done.
Qed.

(** Outside the recording path [Process] never sets the flag and never
    changes the size of the buffer. *)
Lemma Process_playback_step (x y : float) (st st1 : t) :
  _is_recording st = false ->
  Process x st = Some (y, st1) ->
  _is_recording st1 = false
  /\ _buffer_length st1 = _buffer_length st
  /\ array_length (_buffer st1) = array_length (_buffer st).
Proof.
  intros Hrec. unfold Process. rewrite Hrec.
  destruct (_is_empty st); [intros [= <- <-]; done |].
  destruct (GetInterpolatedSample _ st) as [out |]; [|done].
  destruct (_overdubbing st).
  - destruct (to_size _) as [ph |]; [|done].
    destruct (size_rem _ _) as [index |]; [|done].
    destruct (array_read _ _) as [old |]; [|done].
    destruct (array_write _ _ _) as [buf |] eqn:Hw; [|done].
    apply array_write_length in Hw. cbn.
    destruct (_reverse st); cbn;
      match goal with |- context [if ?c then _ else _] => destruct c end;
      intros [= <- <-]; cbn; done.
  - cbn. destruct (_reverse st); cbn;
      match goal with |- context [if ?c then _ else _] => destruct c end;
      intros [= <- <-]; cbn; done.
Qed.







End RecordingFacts.

(** ** Seam crossfade *)

Section CrossfadeFacts.
Import OverdubLooper.
Context `{Platform} `{FloatOps}.

Lemma mod_shift_ne a d b : 0 < d < b -> (a + d) mod b <> a mod b.
Proof.
  intros [Hd Hb] Heq.
  pose proof (Z.mod_pos_bound a b ltac:(lia)) as Hr.
  rewrite <- Zplus_mod_idemp_l in Heq.
  destruct (Z_lt_ge_dec (a mod b + d) b) as [Hlt | Hge].
  - rewrite Z.mod_small in Heq by lia. lia.
  - rewrite <- (Z.mod_add _ (-1) b) in Heq by lia.
    rewrite Z.mod_small in Heq by lia. lia.
Qed.

Lemma start_index_range (st : t) i :
  buffer_ok st -> 0 <= start_index st i < _buffer_length st.
Proof. intros [_ Hcap]. apply Z.mod_pos_bound. lia. Qed.

Lemma end_index_range (st : t) i :
  buffer_ok st -> 0 <= end_index st i < _buffer_length st.
Proof. intros [_ Hcap]. apply Z.mod_pos_bound. lia. Qed.

(** One iteration, on the object [st] whose buffer has become [cur]. *)
Lemma crossfade_body_Some (st : t) (i : Z) (cur : list float) :
  buffer_ok st ->
  array_length cur = _buffer_length st ->
  exists a b,
    cur !! Z.to_nat (start_index st i) = Some a
    /\ cur !! Z.to_nat (end_index st i) = Some b
    /\ crossfade_body i (set_buffer cur st) =
         Some (set_buffer
                 (<[Z.to_nat (start_index st i) :=
                      crossfade_blend a b (crossfade_fade i st)]> cur)
                 st).
Proof.
  intros Hbuf Hcur. pose proof Hbuf as [_ Hcap].
  pose proof (start_index_range st i Hbuf) as Hs.
  pose proof (end_index_range st i Hbuf) as He.
  rewrite <- Hcur in Hs, He.
  destruct (array_read_Some cur (start_index st i) Hs) as (a & Hra & Ha).
  destruct (array_read_Some cur (end_index st i) He) as (b & Hrb & Hb).
  exists a, b. split; [done |]. split; [done |].
  unfold crossfade_body, crossfade_start_idx, crossfade_end_idx.
  cbn [_loop_start _loop_length _buffer_length _buffer set_buffer].
  rewrite !size_rem_Some by lia.
  fold (start_index st i) (end_index st i).
  rewrite Hra, Hrb, array_write_Some by done. done.
Qed.

Lemma crossfade_loop (st : t) (n : nat) :
  buffer_ok st ->
  forall (from : Z) (cur : list float),
    array_length cur = _buffer_length st ->
    exists buf',
      for_loop n from crossfade_body (set_buffer cur st)
        = Some (set_buffer buf' st)
      /\ array_length buf' = _buffer_length st
      /\ (forall k : nat,
            (forall i, from <= i < from + Z.of_nat n ->
                       start_index st i <> Z.of_nat k) ->
            buf' !! k = cur !! k)
      /\ (no_overlap st from n ->
          forall i, from <= i < from + Z.of_nat n ->
          exists a b,
            cur !! Z.to_nat (start_index st i) = Some a
            /\ cur !! Z.to_nat (end_index st i) = Some b
            /\ buf' !! Z.to_nat (start_index st i)
               = Some (crossfade_blend a b (crossfade_fade i st))).
Proof.
  intros Hbuf.
  induction n as [| n' IH]; intros from cur Hcur.
  - exists cur. cbn [for_loop]. repeat split; try done. lia.
  - destruct (crossfade_body_Some st from cur Hbuf Hcur)
      as (a & b & Ha & Hb & Hstep).
    set (v := crossfade_blend a b (crossfade_fade from st)) in *.
    set (cur1 := <[Z.to_nat (start_index st from) := v]> cur) in *.
    assert (Hcur1 : array_length cur1 = _buffer_length st).
    { unfold array_length, cur1. rewrite length_insert. exact Hcur. }
    destruct (IH (from + 1) cur1 Hcur1)
      as (buf' & Hloop & Hlen & Hframe & Hblend).
    pose proof (start_index_range st from Hbuf) as Hrange.
    exists buf'. cbn [for_loop]. rewrite Hstep.
    split; [exact Hloop |]. split; [exact Hlen |].
    split.
    + intros k Hk. rewrite Hframe by (intros i Hi; apply Hk; lia).
      unfold cur1. apply list_lookup_insert_ne.
      specialize (Hk from ltac:(lia)). lia.
    + intros Hno i Hi.
      destruct (Z.eq_dec i from) as [-> | Hne].
      * exists a, b. split; [done |]. split; [done |].
        rewrite Hframe.
        { unfold cur1. apply list_lookup_insert_eq.
          unfold array_length in Hcur. lia. }
        intros j Hj. rewrite Z2Nat.id by lia.
        apply (Hno j from); lia.
      * destruct (Hblend ltac:(intros p q Hq Hp; apply Hno; lia)
                    i ltac:(lia))
          as (a' & b' & Ha' & Hb' & Hres).
        destruct (Hno i from ltac:(lia) ltac:(lia)) as [Hs He].
        pose proof (start_index_range st i Hbuf).
        pose proof (end_index_range st i Hbuf).
        exists a', b'.
        unfold cur1 in Ha', Hb'.
        rewrite list_lookup_insert_ne in Ha' by lia.
        rewrite list_lookup_insert_ne in Hb' by lia.
        done.
Qed.

Lemma for_loop_S (n : nat) from body (st : t) :
  for_loop (S n) from body st =
    do st' <- body from st; for_loop n (from + 1) body st'.
Proof. reflexivity. Qed.

Lemma for_loop_S_r (n : nat) :
  forall from body (st : t),
    for_loop (S n) from body st =
      do st' <- for_loop n from body st; body (from + Z.of_nat n) st'.
Proof.
  induction n as [| n' IH]; intros from body st.
  - cbn [for_loop Z.of_nat]. rewrite Z.add_0_r.
    destruct (body from st); done.
  - rewrite (for_loop_S (S n')), (for_loop_S n').
    destruct (body from st) as [st1 |]; [|done].
    rewrite IH.
    replace (from + 1 + Z.of_nat n') with (from + Z.of_nat (S n')) by lia.
    done.
Qed.

(** The buffer after the first [i] iterations of the loop. *)
Lemma crossfade_trace_step (st : t) (i : nat) :
  buffer_ok st ->
  exists a b,
    crossfade_trace st i !! Z.to_nat (start_index st (Z.of_nat i)) = Some a
    /\ crossfade_trace st i !! Z.to_nat (end_index st (Z.of_nat i)) = Some b
    /\ crossfade_trace st (S i) =
         <[Z.to_nat (start_index st (Z.of_nat i)) :=
             crossfade_blend a b (crossfade_fade (Z.of_nat i) st)]>
           (crossfade_trace st i).
Proof.
  intros Hbuf. pose proof Hbuf as [Hlen _].
  destruct (crossfade_loop st i Hbuf 0 (_buffer st) Hlen)
    as (cur & Hloop & Hcur & _).
  assert (Est : set_buffer (_buffer st) st = st) by (by destruct st).
  rewrite Est in Hloop.
  destruct (crossfade_body_Some st (Z.of_nat i) cur Hbuf Hcur)
    as (a & b & Ha & Hb & Hstep).
  exists a, b. unfold crossfade_trace.
  rewrite for_loop_S_r, Hloop. cbn [_buffer set_buffer].
  rewrite Z.add_0_l, Hstep. done.
Qed.

(** A region that fits the buffer and the range of [size_t] does not
    overlap itself. *)
Lemma region_no_overlap (st : t) :
  buffer_ok st -> is_size (_loop_start st) ->
  2 * CROSSFADE_SAMPLES <= _loop_length st <= _buffer_length st ->
  _loop_start st + _loop_length st <= SIZE_MOD ->
  (forall i, 0 <= i < CROSSFADE_SAMPLES ->
     start_index st i = (_loop_start st + i) mod _buffer_length st
     /\ end_index st i =
          (_loop_start st + _loop_length st - CROSSFADE_SAMPLES + i)
          mod _buffer_length st)
  /\ no_overlap st 0 (Z.to_nat CROSSFADE_SAMPLES).
Proof.
  intros [_ Hcap] Hls Hll Hfit. unfold is_size, CROSSFADE_SAMPLES in *.
  assert (Hidx : forall i, 0 <= i < 128 ->
     start_index st i = (_loop_start st + i) mod _buffer_length st
     /\ end_index st i =
          (_loop_start st + _loop_length st - 128 + i)
          mod _buffer_length st).
  { intros i Hi. unfold start_index, end_index, size_add, size_sub.
    unfold CROSSFADE_SAMPLES.
    rewrite wrap_sub_l, wrap_add_l, !wrap_small by lia. done. }
  split; [exact Hidx |].
  intros i j Hj Hi. change (Z.of_nat (Z.to_nat 128)) with 128 in Hi.
  destruct (Hidx i ltac:(lia)) as [-> ->].
  destruct (Hidx j ltac:(lia)) as [-> _].
  split.
  - replace (_loop_start st + i) with (_loop_start st + j + (i - j)) by lia.
    apply mod_shift_ne. lia.
  - replace (_loop_start st + _loop_length st - 128 + i)
      with (_loop_start st + j + (_loop_length st - 128 + i - j)) by lia.
    apply mod_shift_ne. lia.
Qed.

(** C9.  [StopRecording] clears the recording flag.  When the region is
    shorter than twice the crossfade window it changes nothing else.
    Otherwise it changes the buffer only at the first 128 region
    indices [(_loop_start + i) % _buffer_length], all other samples
    and the size of the buffer being kept.  The new buffer is reached
    in 128 steps; step [i] replaces the sample [a] at the [i]-th index
    of the region by the linear blend [a * fade + b * (1 - fade)] with
    the sample [b] at the [i]-th of the last 128 indices of the region,
    where [fade = i * _inv_crossfade_samples], the member that [Init]
    sets to [1 / 128] and no other call assigns
    ([Init_inv_crossfade_samples], [calls_inv_crossfade_samples]).  For
    a region that fits the buffer, [a] and [b] are the samples held
    before the call. *)
Theorem StopRecording_crossfade (st : t) :
  buffer_ok st ->
  (_loop_length st < 2 * CROSSFADE_SAMPLES ->
   StopRecording st = Some (set_is_recording false st))
  /\ (2 * CROSSFADE_SAMPLES <= _loop_length st ->
      exists buf',
        StopRecording st = Some (set_buffer buf' (set_is_recording false st))
        /\ array_length buf' = array_length (_buffer st)
        /\ (forall k : nat,
              (forall i, 0 <= i < CROSSFADE_SAMPLES ->
                         crossfade_start_idx i st <> Some (Z.of_nat k)) ->
              buf' !! k = _buffer st !! k)
        /\ (let trace := crossfade_trace (set_is_recording false st) in
            trace O = _buffer st
            /\ trace (Z.to_nat CROSSFADE_SAMPLES) = buf'
            /\ forall i : nat, (i < Z.to_nat CROSSFADE_SAMPLES)%nat ->
               exists a b,
                 trace i !! Z.to_nat (start_index st (Z.of_nat i)) = Some a
                 /\ trace i !! Z.to_nat (end_index st (Z.of_nat i)) = Some b
                 /\ trace (S i) =
                      <[Z.to_nat (start_index st (Z.of_nat i)) :=
                          fadd
                            (fmul a
                               (fmul (of_size (Z.of_nat i))
                                     (_inv_crossfade_samples st)))
                            (fmul b
                               (fsub fone
                                  (fmul (of_size (Z.of_nat i))
                                        (_inv_crossfade_samples st))))]>
                        (trace i))
        /\ (is_size (_loop_start st) ->
            _loop_length st <= _buffer_length st ->
            _loop_start st + _loop_length st <= SIZE_MOD ->
            forall i, 0 <= i < CROSSFADE_SAMPLES ->
            exists si ei a b,
              crossfade_start_idx i st = Some si
              /\ crossfade_end_idx i st = Some ei
              /\ si = (_loop_start st + i) mod _buffer_length st
              /\ ei = (_loop_start st + _loop_length st
                       - CROSSFADE_SAMPLES + i) mod _buffer_length st
              /\ _buffer st !! Z.to_nat si = Some a
              /\ _buffer st !! Z.to_nat ei = Some b
              /\ buf' !! Z.to_nat si
                 = Some (fadd
                           (fmul a
                              (fmul (of_size i) (_inv_crossfade_samples st)))
                           (fmul b
                              (fsub fone
                                 (fmul (of_size i)
                                       (_inv_crossfade_samples st))))))).
Proof.
  intros Hbuf. pose proof Hbuf as [Hlen Hcap].
  pose proof SIZE_MOD_min as HM.
  assert (Hwin : size_mul CROSSFADE_SAMPLES 2 = 2 * CROSSFADE_SAMPLES).
  { unfold size_mul, CROSSFADE_SAMPLES. apply wrap_small. lia. }
  set (st0 := set_is_recording false st).
  assert (Hbuf0 : buffer_ok st0) by exact Hbuf.
  unfold StopRecording, ApplyCrossfade. fold st0.
  change (_loop_length st0) with (_loop_length st). rewrite Hwin.
  split.
  - intros Hshort. apply Z.ltb_lt in Hshort. by rewrite Hshort.
  - intros Hlong. pose proof Hlong as Hge. apply Z.ltb_ge in Hge.
    rewrite Hge.
    destruct (crossfade_loop st0 (Z.to_nat CROSSFADE_SAMPLES) Hbuf0 0
                (_buffer st) Hlen)
      as (buf' & Hloop & Hlen' & Hframe & Hblend).
    exists buf'.
    change (set_buffer (_buffer st) st0) with st0 in Hloop.
    split; [exact Hloop |].
    split; [rewrite Hlen'; symmetry; exact Hlen |].
    split.
    + intros k Hk. apply Hframe. intros i Hi Heq.
      apply (Hk i); [exact Hi |].
      unfold crossfade_start_idx. rewrite size_rem_Some by lia.
      f_equal. exact Heq.
    + split.
      { split; [done |].
        split; [unfold crossfade_trace; by rewrite Hloop |].
        intros i _.
        destruct (crossfade_trace_step st0 i Hbuf0) as (a & b & Ha & Hb & Hs).
        exists a, b. split; [exact Ha |]. split; [exact Hb |]. exact Hs. }
      intros Hls Hfit Hnowrap i Hi.
      destruct (region_no_overlap st0 Hbuf0 Hls ltac:(split; assumption)
                  Hnowrap) as [Hidx Hno].
      destruct (Hidx i Hi) as [Hsi Hei].
      destruct (Hblend Hno i Hi) as (a & b & Ha & Hb & Hres).
      exists (start_index st0 i), (end_index st0 i), a, b.
      unfold crossfade_start_idx, crossfade_end_idx.
      rewrite !size_rem_Some by lia.
      repeat (split; [done |]). exact Hres.
Qed.
End CrossfadeFacts.

(** ** The record head stays inside the buffer *)

Section InvariantFacts.
Import OverdubLooper.
Context `{Platform} `{FloatOps}.

Lemma same_recording_members_refl (st : t) : same_recording_members st st.
Proof. by repeat split. Qed.

Lemma recording_ok_same (st st' : t) :
  same_recording_members st st' -> recording_ok st -> recording_ok st'.
Proof.
  intros (Hl & Ha & Hr & Hh) [[Hlen Hcap] Hhead].
  unfold recording_ok, buffer_ok, rec_head_ok in *.
  rewrite Hl, Ha, Hr, Hh. done.
Qed.

Lemma memcpy_length dst doff src soff n r :
  memcpy dst doff src soff n = Some r -> array_length r = array_length dst.
Proof.
  unfold memcpy, array_length. intros Hcopy.
  destruct (_ && _) eqn:E; [|done]. injection Hcopy as <-.
  repeat (apply andb_prop in E as [E ?]).
  rewrite !length_app, !length_take, length_drop.
  repeat match goal with
         | Hc : (_ <=? _) = true |- _ => apply Z.leb_le in Hc
         end.
  rewrite length_drop. lia.
Qed.

Lemma SaveUndoState_same (st st' : t) :
  SaveUndoState st = Some st' -> same_recording_members st st'.
Proof.
  unfold SaveUndoState.
  destruct (_ || _); [intros [= <-]; apply same_recording_members_refl |].
  destruct (_ !! _) as [slot |]; [|done].
  destruct (memcpy _ _ _ _ _) as [slot' |]; [|done]. cbn.
  destruct (size_rem _ _) as [w |]; [|done]. cbn.
  destruct (_ <? _); intros [= <-]; by repeat split.
Qed.

Lemma Undo_same (st st' : t) (ok : bool) :
  Undo st = Some (ok, st') -> same_recording_members st st'.
Proof.
  unfold Undo.
  destruct (_ || _); [intros [= <- <-]; apply same_recording_members_refl |].
  destruct (size_rem _ _) as [r |]; [|done]. cbn.
  destruct (_ !! _) as [slot |]; [|done].
  destruct (memcpy _ _ _ _ _) as [buf |] eqn:Hcopy; [|done]. cbn.
  apply memcpy_length in Hcopy.
  destruct (_ <? _); intros [= <- <-]; by repeat split.
Qed.

Lemma Redo_same (st st' : t) (ok : bool) :
  Redo st = Some (ok, st') -> same_recording_members st st'.
Proof.
  unfold Redo.
  destruct (_ || _); [intros [= <- <-]; apply same_recording_members_refl |].
  destruct (size_rem _ _) as [r |]; [|done]. cbn.
  destruct (_ !! _) as [slot |]; [|done].
  destruct (memcpy _ _ _ _ _) as [buf |] eqn:Hcopy; [|done]. cbn.
  apply memcpy_length in Hcopy.
  intros [= <- <-]; by repeat split.
Qed.

Lemma SetLoopRegion_same (s e : Z) (st : t) :
  same_recording_members st (SetLoopRegion s e st).
Proof.
  unfold SetLoopRegion.
  destruct (region_clamped s e); cbn;
    match goal with |- context [fleb ?a ?b] => destruct (fleb a b) end;
    by repeat split.
Qed.

Lemma StopRecording_ok (st st' : t) :
  buffer_ok st -> StopRecording st = Some st' ->
  buffer_ok st' /\ _is_recording st' = false.
Proof.
  intros Hbuf. pose proof Hbuf as [Hlen Hcap].
  unfold StopRecording, ApplyCrossfade.
  destruct (_ <? _); [intros [= <-]; done |].
  destruct (crossfade_loop (set_is_recording false st)
              (Z.to_nat CROSSFADE_SAMPLES) Hbuf 0 (_buffer st) Hlen)
    as (buf' & Hloop & Hlen' & _).
  change (set_buffer (_buffer st) (set_is_recording false st))
    with (set_is_recording false st) in Hloop.
  rewrite Hloop. intros [= <-]. done.
Qed.

(** Every call that changes the object, other than [Init], keeps the
    buffer well formed and, while the recording flag is set, the record
    head inside the buffer. *)
Lemma call_recording_ok (c : Call) (st st' : t) :
  recording_ok st -> call c st = Some st' -> recording_ok st'.
Proof.
  intros Hok. pose proof Hok as [Hbuf Hhead].
  destruct c; cbn [call].
  - intros [= <-]. split; [exact Hbuf |]. intros _.
    destruct Hbuf as [_ Hcap]. unfold rec_head_ok. cbn. lia.
  - intros Hstop. destruct (StopRecording_ok st st' Hbuf Hstop) as [Hb Hr].
    split; [exact Hb |]. rewrite Hr. done.
  - unfold StartOverdub.
    destruct (SaveUndoState st) as [st1 |] eqn:Hsave; [|done].
    intros [= <-]. apply SaveUndoState_same in Hsave.
    by apply (recording_ok_same st).
  - intros [= <-]. exact Hok.
  - intros [= <-].
    apply (recording_ok_same st); [apply SetLoopRegion_same | exact Hok].
  - intros [= <-]. exact Hok.
  - intros [= <-]. exact Hok.
  - intros Hsave. apply SaveUndoState_same in Hsave.
    by apply (recording_ok_same st).
  - destruct (Undo st) as [[ok st1] |] eqn:Hundo; [|done].
    intros [= <-]. apply Undo_same in Hundo. by apply (recording_ok_same st).
  - destruct (Redo st) as [[ok st1] |] eqn:Hredo; [|done].
    intros [= <-]. apply Redo_same in Hredo. by apply (recording_ok_same st).
  - destruct (Process inp st) as [[y st1] |] eqn:Hstep; [|done].
    intros [= <-]. pose proof Hbuf as [Hlen Hcap].
    destruct (_is_recording st) eqn:Hrec0.
    + destruct (Process_recording_step inp st Hbuf Hrec0 (Hhead eq_refl))
        as (st2 & Hstep2 & Hb2 & Hl2 & Hr2 & Hh2).
      rewrite Hstep in Hstep2. injection Hstep2 as _ <-.
      destruct (Hhead eq_refl) as [Hlo Hhi].
      split.
      * unfold buffer_ok, array_length in *.
        rewrite Hb2, length_insert, Hl2. done.
      * rewrite Hr2. intros Hmore. unfold rec_head_ok.
        rewrite Hh2, Hl2, Hmore. apply Z.ltb_lt in Hmore. lia.
    + destruct (Process_playback_step inp y st st1 Hrec0 Hstep)
        as (Hr1 & Hl1 & Ha1).
      split; [unfold buffer_ok; rewrite Ha1, Hl1; done |].
      rewrite Hr1. done.
  - intros [= <-]. exact Hok.
  - unfold SetLoop.
    destruct (to_size _) as [s |]; [|done]. cbn.
    destruct (to_size _) as [l |]; [|done]. cbn.
    destruct (l <? 1); intros [= <-]; exact Hok.
  - unfold SetTempo.
    destruct (_ || _); [intros [= <-]; exact Hok |].
    destruct (to_size _) as [spb |]; [|done]. intros [= <-]. exact Hok.
  - intros [= <-]. exact Hok.
Qed.

Lemma calls_recording_ok (cs : list Call) :
  forall st st' : t,
    recording_ok st -> calls cs st = Some st' -> recording_ok st'.
Proof.
  induction cs as [| c cs' IH]; intros st st' Hok; cbn [calls].
  - intros [= <-]. exact Hok.
  - destruct (call c st) as [st1 |] eqn:Hcall; [|done].
    apply IH. by apply (call_recording_ok c st).
Qed.

(** [Init] on a static object, with the actual size of the memory. *)
Lemma Init_recording_ok (buf : list float) undo_bufs levels (st : t) :
  0 < array_length buf -> sizeof_float * array_length buf < SIZE_MOD ->
  Init buf (array_length buf) undo_bufs levels zero_initialized = Some st ->
  recording_ok st.
Proof.
  intros Hpos Hfit. unfold Init.
  set (st1 := set_buffer_length _ _).
  destruct (match undo_bufs with Some _ => _ | None => _ end)
    as [st2 |] eqn:Hundo; [|done].
  assert (Hsame : _buffer st2 = buf /\ _buffer_length st2 = array_length buf
                  /\ _is_recording st2 = false).
  { destruct undo_bufs as [bufs |].
    - destruct (0 <? levels).
      + destruct (copy_undo_pointers _ _ _ _); [|done].
        by injection Hundo as <-.
      + by injection Hundo as <-.
    - by injection Hundo as <-. }
  destruct Hsame as (Hb & Hl & Hr).
  assert (Hn : floats_in_bytes (_buffer_length st2) = array_length buf).
  { unfold floats_in_bytes, size_mul, sizeof_float in *.
    rewrite Hl, wrap_small by lia.
    rewrite Z.mul_comm. apply Z.div_mul. lia. }
  rewrite Hn, Hb. unfold memset_zero.
  destruct (_ && _) eqn:E; [|done]. intros [= <-].
  split; [|cbn; rewrite Hr; done].
  split; cbn; [|unfold sizeof_float in Hfit; rewrite Hl; lia].
  unfold array_length in *.
  rewrite length_app, length_replicate, length_drop, Hl. lia.
Qed.
End InvariantFacts.

(** ** Undo history: what the three operations leave alone *)

Section HistoryMembers.
Import OverdubLooper.
Context `{Platform} `{FloatOps}.

(** A save realigns the cursors and keeps [_redo_depth]. *)
Lemma SaveUndoState_keeps_redo_depth (st st' : t) :
  SaveUndoState st = Some st' -> _redo_depth st' = _redo_depth st.
Proof.
  unfold SaveUndoState.
  destruct (_ || _); [by intros [= <-] |].
  destruct (_ !! _) as [slot |]; [|done].
  destruct (memcpy _ _ _ _ _) as [slot' |]; [|done]. cbn.
  destruct (size_rem _ _) as [w |]; [|done]. cbn.
  destruct (_ <? _); by intros [= <-].
Qed.

(** [Undo] and [Redo] write no snapshot: the content they replace is
    kept nowhere. *)
Lemma Undo_keeps_snapshots (st st' : t) (ok : bool) :
  Undo st = Some (ok, st') -> _undo_buffers st' = _undo_buffers st.
Proof.
  unfold Undo.
  destruct (_ || _); [by intros [= <- <-] |].
  destruct (size_rem _ _) as [r |]; [|done]. cbn.
  destruct (_ !! _) as [slot |]; [|done].
  destruct (memcpy _ _ _ _ _) as [buf |]; [|done]. cbn.
  destruct (_ <? _); by intros [= <- <-].
Qed.

Lemma Redo_keeps_snapshots (st st' : t) (ok : bool) :
  Redo st = Some (ok, st') -> _undo_buffers st' = _undo_buffers st.
Proof.
  unfold Redo.
  destruct (_ || _); [by intros [= <- <-] |].
  destruct (size_rem _ _) as [r |]; [|done]. cbn.
  destruct (_ !! _) as [slot |]; [|done].
  destruct (memcpy _ _ _ _ _) as [buf |]; [|done]. cbn.
  by intros [= <- <-].
Qed.

(** A successful [Redo] increments [_undo_depth] without a bound. *)
Lemma Redo_counters (st st' : t) :
  Redo st = Some (true, st') ->
  _undo_depth st' = size_add (_undo_depth st) 1
  /\ _redo_depth st' = size_sub (_redo_depth st) 1.
Proof.
  unfold Redo.
  destruct (_ || _); [done |].
  destruct (size_rem _ _) as [r |]; [|done]. cbn.
  destruct (_ !! _) as [slot |]; [|done].
  destruct (memcpy _ _ _ _ _) as [buf |]; [|done]. cbn.
  by intros [= <-].
Qed.
End HistoryMembers.

(** ** Undo history on the Daisy Seed *)

Section HistoryFacts.
Import OverdubLooper Fixtures.
#[local] Existing Instance daisy.
#[local] Existing Instance exact_arith.

(** C4.  After three saves (the configured count) the region holds the
    take [4].  [Undo] succeeds and restores the last snapshot [3];
    [Redo] then also succeeds, but copies undo slot 0, the oldest
    snapshot [1], into the region: the state before [Undo] is lost. *)
Theorem Redo_after_Undo_loses_state :
  (do x <- calls history_script (engine_state 1);
   do '(undone, y) <- Undo x;
   do '(redone, z) <- Redo y;
   Some (_undo_count x, _undo_depth x, region_content x,
         undone, region_content y, redone, region_content z))
  = Some (3, 3, [4%Q], true, [3%Q], true, [1%Q]).
Proof. vm_compute. reflexivity. Qed.

(** C5.  With three snapshot slots, the calls save, save, save, undo,
    save, redo leave [_undo_depth = 4]; with two slots, the calls save,
    save, undo, undo leave [_redo_depth = 2]. *)
Theorem undo_depth_exceeds_count :
  (do x <- calls depth_script (engine_state 1);
   Some (_undo_count x, _undo_depth x, _redo_depth x)) = Some (3, 4, 0)
  /\ (do x <- calls redo_depth_script (engine_two_levels 1);
      Some (_undo_count x, _undo_depth x, _redo_depth x)) = Some (2, 0, 2).
Proof. split; vm_compute; reflexivity. Qed.

(** C8.  After the saves of [1], [2] and [3], two undos (back to [2])
    and a save on the new branch, the take [5] is in the region and
    [CanRedo] is still true; [Redo] succeeds and copies the snapshot [3],
    a state of the branch the two undos left, into the region. *)
Theorem Redo_after_Save_restores_old_snapshot :
  (do x <- calls branch_script (engine_state 1);
   do '(redone, y) <- Redo x;
   Some (CanRedo x, region_content x, redone, region_content y))
  = Some (true, [5%Q], true, [3%Q]).
Proof. vm_compute. reflexivity. Qed.
End HistoryFacts.

(** ** Concrete cases on the Daisy Seed *)

Section DaisyCases.
Import OverdubLooper Fixtures Samples.
#[local] Existing Instance daisy.
#[local] Existing Instance exact_arith.




(** The whole range of [size_t] as a region, and a region set while
    the playhead is negative. *)
Lemma SetLoopRegion_region_counterexample :
  (let st' := SetLoopRegion 0 4294967295 (engine_state 4) in
   is_size 0 /\ is_size 4294967295 /\ 0 <= 4294967295
   /\ _loop_length st' = 1
   /\ _loop_length st' <> 4294967295 - 0 + 1)
  /\ (do st <- calls reverse_script (engine_state 4);
      let st' := SetLoopRegion 0 3 st in
      Some (_play_head st, _loop_length st', _play_head st',
            fleb fzero (_play_head st')))
     = Some ((-2)%Q, 4, (-2)%Q, false).
Proof.
  split; [|vm_compute; reflexivity].
  cbv zeta. unfold is_size.
  repeat split; vm_compute; (reflexivity || discriminate).
Qed.

Lemma SetLoopRegion_region_witness :
  let st := engine_state 4 in
  (is_size 1 /\ is_size 2 /\ 1 <= 2 /\ 2 - 1 + 1 < SIZE_MOD)
  /\ _loop_length (SetLoopRegion 1 2 st) = 2
  /\ (fleb fzero (_play_head st) = true
      /\ fleb fzero (_play_head (SetLoopRegion 1 2 st)) = true).
Proof.
  intros st.
  assert (H1 : is_size 1) by (split; [discriminate | reflexivity]).
  assert (H2 : is_size 2) by (split; [discriminate | reflexivity]).
  assert (H3 : 1 <= 2) by discriminate.
  assert (H4 : 2 - 1 + 1 < SIZE_MOD) by reflexivity.
  destruct (SetLoopRegion_region st 1 2 H1 H2 H3 H4)
    as (_ & Hlen & _ & _ & Hpos).
  split; [done |]. split; [exact Hlen |].
  split; [reflexivity | apply Hpos; reflexivity].
Defined.

(** A start one below [2^32], and a recorded length near [2^32] with
    16 beats per group. *)
Lemma QuantizeLoopRegion_overflow_counterexample :
  (_quantize (quantized_engine 4) = true
   /\ _samples_per_beat (quantized_engine 4) = 24000
   /\ QuantizeLoopRegion 4294967295 4294967295 (quantized_engine 4)
      = Some (0, 96000)
   /\ 24000 < 2 * Z.abs (0 - 4294967295))
  /\ (_quantize_beats (quantized_engine 16) = 16
      /\ QuantizeLoopRegion 0 4294900000 (quantized_engine 16)
         = Some (0, 72704)
      /\ (72704 - 0) mod (16 * 24000) <> 0
      /\ 72704 - 0 < 16 * 24000).
Proof.
  repeat split; vm_compute; (reflexivity || discriminate).
Qed.

Lemma QuantizeLoopRegion_spec_witness :
  let st := quantized_engine 4 in
  (is_size 10000 /\ is_size 100000 /\ is_size (_samples_per_beat st)
   /\ 1 <= _quantize_beats st)
  /\ (exists out_end k,
        QuantizeLoopRegion 10000 100000 st = Some (0, out_end)
        /\ 1 <= k /\ out_end - 0 = k * (4 * 24000)).
Proof.
  intros st.
  assert (H1 : is_size 10000) by (split; [discriminate | reflexivity]).
  assert (H2 : is_size 100000) by (split; [discriminate | reflexivity]).
  assert (H3 : is_size (_samples_per_beat st))
    by (split; [discriminate | reflexivity]).
  assert (H4 : 1 <= _quantize_beats st) by discriminate.
  split; [done |].
  destruct (proj2 (QuantizeLoopRegion_spec st 10000 100000 H1 H2 H3 H4)
              eq_refl eq_refl eq_refl eq_refl eq_refl eq_refl)
    as (out_end & Hrun & _ & _ & _ & k & Hk & Hlen).
  exists out_end, k. split; [exact Hrun |]. split; [exact Hk | exact Hlen].
Defined.

(** 130 beats per minute at 48 kHz: the quotient is 22153.84..., the
    nearest integer is 22154. *)
Lemma SetBPM_truncates_counterexample :
  ClockSync._sample_rate clock = 48000%Q
  /\ fltb fzero 130%Q = true
  /\ (do c <- ClockSync.SetBPM 130%Q clock;
      Some (ClockSync._samples_per_beat c)) = Some 22153
  /\ (22154 - (1 # 2) <= 48000 * 60 / 130)%Q
  /\ (48000 * 60 / 130 < 22154 + (1 # 2))%Q.
Proof.
  repeat split; vm_compute; (reflexivity || discriminate).
Qed.

Lemma setters_recompute_witness :
  (fltb fzero 100%Q = true
   /\ ftrunc (fdiv (fmul (ClockSync._sample_rate clock) (of_Q 60)) 100%Q)
      = Some 28800
   /\ is_size 28800)
  /\ (do c <- ClockSync.SetBPM 100%Q clock;
      Some (ClockSync._samples_per_beat c, ClockSync._samples_per_bar c))
     = Some (28800, 115200)
  /\ ClockSync.SetBPM (-1)%Q clock = Some clock.
Proof.
  assert (H1 : fltb fzero 100%Q = true) by reflexivity.
  assert (H2 : ftrunc (fdiv (fmul (ClockSync._sample_rate clock) (of_Q 60))
                            100%Q) = Some 28800) by reflexivity.
  assert (H3 : is_size 28800) by (split; [discriminate | reflexivity]).
  destruct (setters_recompute clock) as (Hneg & _ & _ & Hpos & _).
  split; [done |].
  split.
  - rewrite (Hpos 100%Q 28800 H1 H2 H3). reflexivity.
  - apply Hneg. reflexivity.
Defined.

(** The ramp 0 .. 299 as a 300-sample loop on an engine set up by
    [Init]: the step is 1/128, sample 0 becomes the sample 172 that
    opens the last window, sample 64 the midpoint 150 of the samples 64
    and 236, and sample 127 is 127/128 of itself plus 1/128 of the last
    sample 299. *)
Lemma StopRecording_crossfade_witness :
  buffer_ok ramp_engine
  /\ 2 * CROSSFADE_SAMPLES <= _loop_length ramp_engine
  /\ _inv_crossfade_samples ramp_engine = (1 # 128)%Q
  /\ (exists buf',
        StopRecording ramp_engine
          = Some (set_buffer buf' (set_is_recording false ramp_engine))
        /\ buf' !! 200%nat = Some (inject_Z 200)
        /\ buf' !! 0%nat = Some (2818048 # 16384)%Q
        /\ buf' !! 1%nat = Some (2812416 # 16384)%Q
        /\ buf' !! 64%nat = Some (2457600 # 16384)%Q
        /\ buf' !! 127%nat = Some (2102784 # 16384)%Q)
  /\ ((2818048 # 16384) == 172
      /\ (2812416 # 16384) == 1 * (1 # 128) + 173 * (127 # 128)
      /\ (2457600 # 16384) == 150
      /\ (2102784 # 16384) == 127 * (127 # 128) + 299 * (1 # 128))%Q.
Proof.
  assert (Hbuf : buffer_ok ramp_engine)
    by (split; [reflexivity | split; reflexivity]).
  assert (Hlong : 2 * CROSSFADE_SAMPLES <= _loop_length ramp_engine)
    by discriminate.
  split; [exact Hbuf |]. split; [exact Hlong |]. split; [reflexivity |].
  split; [| repeat split; reflexivity].
  destruct (proj2 (StopRecording_crossfade ramp_engine Hbuf) Hlong)
    as (buf' & Hrun & _ & Hframe & _ & Hblend).
  exists buf'. split; [exact Hrun |].
  assert (Hat : forall i, 0 <= i < CROSSFADE_SAMPLES ->
            buf' !! Z.to_nat i
            = Some (fadd
                      (fmul (of_size i)
                         (fmul (of_size i)
                               (_inv_crossfade_samples ramp_engine)))
                      (fmul (of_size (172 + i))
                         (fsub fone
                            (fmul (of_size i)
                                  (_inv_crossfade_samples ramp_engine)))))).
  { intros i Hi.
    destruct (Hblend ltac:(split; [discriminate | reflexivity])
                ltac:(discriminate) ltac:(discriminate) i Hi)
      as (si & ei & a & b & _ & _ & Hsi & Hei & Ha & Hb & Hres).
    unfold CROSSFADE_SAMPLES in Hi.
    change (si = (0 + i) mod 300) in Hsi.
    change (ei = (0 + 300 - 128 + i) mod 300) in Hei.
    rewrite Z.add_0_l, Z.mod_small in Hsi by lia.
    rewrite Z.mod_small in Hei by lia.
    replace (0 + 300 - 128 + i) with (172 + i) in Hei by lia.
    subst si ei.
    assert (Hramp : forall k, 0 <= k < 300 ->
              _buffer ramp_engine !! Z.to_nat k = Some (of_size k)).
    { intros k Hk.
      change (_buffer ramp_engine) with (map inject_Z (seqZ 0 300)).
      rewrite list_lookup_fmap, lookup_seqZ_lt, Z2Nat.id by lia.
      reflexivity. }
    rewrite Hramp in Ha, Hb by lia.
    injection Ha as <-. injection Hb as <-. exact Hres. }
  split.
  - refine (eq_trans (Hframe 200%nat _) _); [|reflexivity].
    intros i Hi. unfold crossfade_start_idx, size_rem, size_add, wrap.
    change (_loop_start ramp_engine) with 0.
    change (_buffer_length ramp_engine) with 300.
    change (300 =? 0) with false. cbv iota.
    change SIZE_MOD with 4294967296.
    change (Z.of_nat 200) with 200. unfold CROSSFADE_SAMPLES in Hi.
    rewrite Z.add_0_l, (Z.mod_small i 4294967296) by lia.
    rewrite (Z.mod_small i 300) by lia. intros [= E]. lia.
  - split; [exact (Hat 0 ltac:(split; [discriminate | reflexivity])) |].
    split; [exact (Hat 1 ltac:(split; [discriminate | reflexivity])) |].
    split; [exact (Hat 64 ltac:(split; [discriminate | reflexivity])) |].
    exact (Hat 127 ltac:(split; [discriminate | reflexivity])).
Defined.

(** A start one below [2^32] with end 0, on a four-sample buffer. *)
Lemma SetLoopRegion_underflow_counterexample :
  let st' := SetLoopRegion 4294967295 0 (engine_state 4) in
  is_size 4294967295 /\ is_size 0 /\ 0 + 1 < 4294967295
  /\ _loop_length st' = (0 - 4294967295 + 1) mod 2 ^ 32
  /\ _loop_length st' = 2
  /\ _buffer_length st' = 4
  /\ ~ _buffer_length st' < _loop_length st'.
Proof.
  cbv zeta. unfold is_size.
  repeat split; vm_compute; (reflexivity || discriminate).
Qed.

Lemma SetLoopRegion_underflow_witness :
  let st := engine_state 4 in
  (is_size 3 /\ is_size 1 /\ 1 + 1 < 3)
  /\ _loop_length (SetLoopRegion 3 1 st) = SIZE_MOD - (3 - 1 - 1)
  /\ _buffer_length st < _loop_length (SetLoopRegion 3 1 st)
  /\ region_clamped 3 1 = false
  /\ region_clamped 3 2 = true.
Proof.
  intros st.
  assert (H3 : is_size 3) by (split; [discriminate | reflexivity]).
  assert (H1 : is_size 1) by (split; [discriminate | reflexivity]).
  assert (H2 : is_size 2) by (split; [discriminate | reflexivity]).
  destruct (SetLoopRegion_underflow st 3 1 H3 H1) as (_ & Hc & Hlen).
  destruct (Hlen ltac:(reflexivity)) as (_ & Hval & _ & Hcap).
  split; [repeat split; (discriminate || reflexivity) |].
  split; [exact Hval |].
  split; [apply Hcap; [discriminate | discriminate] |].
  split.
  - pose proof (proj1 (Hc ltac:(reflexivity))) as Himp.
    destruct (region_clamped 3 1); [|done].
    specialize (Himp eq_refl). discriminate.
  - destruct (SetLoopRegion_underflow st 3 2 H3 H2) as (_ & Hc' & _).
    apply (proj2 (Hc' ltac:(reflexivity))). reflexivity.
Defined.
End DaisyCases.

(** * Further properties *)

(** ** State machine: guard, history and recording *)

Section MachineMore.
Import LooperStateMachine MachineRuns.
Context {U : Type} `{Hooks U}.

(** X1.  Every change of state that [GetNextState] proposes is a
    transition [CanTransition] allows, so [ProcessEvent] returns true
    exactly when [GetNextState] differs from the current state: the guard
    of [TransitionTo] never rejects an event. *)
Theorem ProcessEvent_never_blocked (m : t U) (e : LooperEvent) :
  (LooperState_eqb (GetNextState (_current_state m) e) (_current_state m)
   || CanTransition (_current_state m)
                    (GetNextState (_current_state m) e)) = true
  /\ fst (ProcessEvent e m)
     = negb (LooperState_eqb (GetNextState (_current_state m) e)
                             (_current_state m))
  /\ _current_state (snd (ProcessEvent e m))
     = GetNextState (_current_state m) e.
Proof. destruct m as [cur prev u]. destruct cur, e; by repeat split. Qed.

Lemma machine_call_allowed (c : MachineCall) (m : t U) :
  CanTransition (_previous_state m) (_current_state m) = true ->
  CanTransition (_previous_state (machine_call c m))
                (_current_state (machine_call c m)) = true.
Proof.
  destruct m as [cur prev u]. destruct c as [e | s |]; cbn.
  - destruct cur, e; cbn; done.
  - destruct cur, s; cbn; done.
  - destruct cur; cbn; done.
Qed.

Lemma machine_calls_allowed (cs : list MachineCall) :
  forall m : t U,
    CanTransition (_previous_state m) (_current_state m) = true ->
    CanTransition (_previous_state (machine_calls cs m))
                  (_current_state (machine_calls cs m)) = true.
Proof.
  induction cs as [| c cs' IH]; intros m Hm; cbn [machine_calls].
  - exact Hm.
  - apply IH. by apply machine_call_allowed.
Qed.

(** X2.  Whatever events, direct transitions and resets the machine
    receives after its construction, the pair (previous state, current
    state) is a transition [CanTransition] allows; so the machine is in
    RECORDING_INITIAL only coming from IDLE, and in OVERDUBBING or PAUSED
    only coming from PLAYING. *)
Theorem previous_current_allowed (cs : list MachineCall) (u : U) :
  let m := machine_calls cs (init u) in
  CanTransition (_previous_state m) (_current_state m) = true
  /\ (_current_state m = RECORDING_INITIAL -> _previous_state m = IDLE)
  /\ (_current_state m = OVERDUBBING -> _previous_state m = PLAYING)
  /\ (_current_state m = PAUSED -> _previous_state m = PLAYING).
Proof.
  intros m.
  assert (Hinv : CanTransition (_previous_state m) (_current_state m) = true)
    by (apply machine_calls_allowed; reflexivity).
  split; [exact Hinv |].
  destruct (_previous_state m), (_current_state m);
    repeat split; intros; (done || discriminate).
Qed.

(** X3.  An event switches recording on (a move into RECORDING_INITIAL
    or OVERDUBBING) only if it is PRESS_REC, and switches it off only if
    it is RELEASE_REC or PRESS_STOP. *)
Theorem IsRecording_changes (m : t U) (e : LooperEvent) :
  let m' := snd (ProcessEvent e m) in
  (IsRecording m = false -> IsRecording m' = true -> e = PRESS_REC)
  /\ (IsRecording m = true -> IsRecording m' = false ->
      e = RELEASE_REC \/ e = PRESS_STOP).
Proof.
  destruct m as [cur prev u].
  destruct cur, e; cbn; split; intros; (done || discriminate || auto).
Qed.
End MachineMore.

(** ** Clock: ticks, beats and bars *)

Section ClockMore.
Import ClockSync ClockRuns.
Context `{Platform} `{FloatOps}.

Lemma mod_div_succ x d :
  0 <= x -> 0 < d ->
  (x + 1) mod d = (if x mod d + 1 <? d then x mod d + 1 else 0)
  /\ (x + 1) / d = (if x mod d + 1 <? d then x / d else x / d + 1).
Proof.
  intros Hx Hd.
  pose proof (Z.div_mod x d ltac:(lia)) as E.
  pose proof (Z.mod_pos_bound x d Hd) as B.
  destruct (x mod d + 1 <? d) eqn:Hlt.
  - apply Z.ltb_lt in Hlt. split; symmetry.
    + apply (Z.mod_unique _ _ (x / d)); lia.
    + apply (Z.div_unique _ _ _ (x mod d + 1)); lia.
  - apply Z.ltb_ge in Hlt. split; symmetry.
    + apply (Z.mod_unique _ _ (x / d + 1)); lia.
    + apply (Z.div_unique _ _ _ 0); lia.
Qed.

(** One call of [Tick] on a clock whose counters are in range. *)
Lemma Tick_step (c : t) :
  clock_ok c ->
  Tick c =
    mk (_bpm c) (_time_sig_numerator c) (_time_sig_denominator c)
       (_sample_rate c) (_samples_per_beat c) (_samples_per_bar c)
       (if _sample_counter c + 1 <? _samples_per_beat c
        then _sample_counter c + 1 else 0)
       (if _sample_counter c + 1 <? _samples_per_beat c then _beat_counter c
        else if _beat_counter c + 1 <? _time_sig_numerator c
             then _beat_counter c + 1 else 0).
Proof.
  intros (Hspb & Hcnt & Hbeat & Hnum). unfold Tick, size_add, wrap8.
  rewrite wrap_small by lia.
  rewrite (Z.mod_small (_beat_counter c + 1)) by lia.
  destruct (0 <? _samples_per_beat c) eqn:E; [|apply Z.ltb_ge in E; lia].
  rewrite !Z.leb_antisym. cbn [andb].
  destruct (_sample_counter c + 1 <? _samples_per_beat c); cbn [negb];
    [done |].
  destruct (_beat_counter c + 1 <? _time_sig_numerator c); done.
Qed.

(** The clock after [n] ticks, in closed form. *)
Lemma Ticks_closed_form (c : t) (n : nat) :
  clock_ok c ->
  Ticks n c =
    mk (_bpm c) (_time_sig_numerator c) (_time_sig_denominator c)
       (_sample_rate c) (_samples_per_beat c) (_samples_per_bar c)
       ((_sample_counter c + Z.of_nat n) mod _samples_per_beat c)
       ((_beat_counter c
         + (_sample_counter c + Z.of_nat n) / _samples_per_beat c)
        mod _time_sig_numerator c)
  /\ clock_ok (Ticks n c).
Proof.
  intros Hok. pose proof Hok as (Hspb & Hcnt & Hbeat & Hnum).
  induction n as [| n' [IH Hok']].
  - cbn [Ticks Nat.iter Z.of_nat]. rewrite Z.add_0_r.
    rewrite (Z.mod_small (_sample_counter c)), Z.div_small, Z.add_0_r by lia.
    rewrite Z.mod_small by lia. split; [by destruct c | exact Hok].
  - change (Ticks (S n') c) with (Tick (Ticks n' c)).
    rewrite (Tick_step _ Hok'), IH.
    cbn [_bpm _time_sig_numerator _time_sig_denominator _sample_rate
         _samples_per_beat _samples_per_bar _sample_counter _beat_counter].
    set (x := _sample_counter c + Z.of_nat n').
    replace (_sample_counter c + Z.of_nat (S n')) with (x + 1) by lia.
    destruct (mod_div_succ x (_samples_per_beat c) ltac:(lia) ltac:(lia))
      as [Em Ed].
    rewrite Em, Ed.
    assert (Hq : 0 <= x / _samples_per_beat c) by (apply Z.div_pos; lia).
    set (y := _beat_counter c + x / _samples_per_beat c) in *.
    destruct (mod_div_succ y (_time_sig_numerator c) ltac:(lia) ltac:(lia))
      as [Eb _].
    pose proof (Z.mod_pos_bound x (_samples_per_beat c) ltac:(lia)).
    pose proof (Z.mod_pos_bound y (_time_sig_numerator c) ltac:(lia)).
    destruct (x mod _samples_per_beat c + 1 <? _samples_per_beat c) eqn:E1.
    + apply Z.ltb_lt in E1. split; [done |].
      unfold clock_ok; cbn. lia.
    + replace (_beat_counter c + (x / _samples_per_beat c + 1))
        with (y + 1) by (unfold y; lia).
      rewrite Eb.
      destruct (y mod _time_sig_numerator c + 1 <? _time_sig_numerator c)
        eqn:E2; [apply Z.ltb_lt in E2 |]; (split; [done |]);
        unfold clock_ok; cbn; lia.
Qed.

(** X4.  On a clock whose counters are in range, [n] ticks leave the
    sample counter at [(counter + n) mod samples_per_beat] and the beat
    counter at [(beat + (counter + n) / samples_per_beat) mod numerator],
    and change no other member; the counters stay in range. *)
Theorem Ticks_counters (c : t) (n : nat) :
  clock_ok c ->
  Ticks n c =
    mk (_bpm c) (_time_sig_numerator c) (_time_sig_denominator c)
       (_sample_rate c) (_samples_per_beat c) (_samples_per_bar c)
       ((_sample_counter c + Z.of_nat n) mod _samples_per_beat c)
       ((_beat_counter c
         + (_sample_counter c + Z.of_nat n) / _samples_per_beat c)
        mod _time_sig_numerator c)
  /\ clock_ok (Ticks n c).
Proof. apply Ticks_closed_form. Qed.

(** X5.  A clock whose counters are in range is periodic: after
    [samples_per_beat * numerator] ticks, one bar, it is the same
    clock. *)
Theorem Ticks_bar_period (c : t) :
  clock_ok c ->
  Ticks (Z.to_nat (_samples_per_beat c * _time_sig_numerator c)) c = c.
Proof.
  intros Hok. pose proof Hok as (Hspb & Hcnt & Hbeat & Hnum).
  rewrite (proj1 (Ticks_closed_form c _ Hok)).
  rewrite Z2Nat.id by nia.
  rewrite Z.mul_comm, Z.mod_add, Z.div_add by lia.
  rewrite (Z.mod_small (_sample_counter c)), Z.div_small by lia.
  rewrite Z.add_0_l.
  replace (_beat_counter c + _time_sig_numerator c)
    with (_beat_counter c + 1 * _time_sig_numerator c) by lia.
  rewrite Z.mod_add, Z.mod_small by lia. by destruct c.
Qed.

(** X6.  [n] ticks after [Reset], the clock reports a beat while
    [n mod samples_per_beat] is below 10, and a downbeat when moreover
    the number of whole beats [n / samples_per_beat] is a multiple of the
    numerator. *)
Theorem Ticks_after_Reset (c : t) (n : nat) :
  0 < _samples_per_beat c < SIZE_MOD ->
  0 < _time_sig_numerator c < 256 ->
  let c' := Ticks n (Reset c) in
  ShouldTriggerOnBeat c' = (Z.of_nat n mod _samples_per_beat c <? 10)
  /\ IsDownbeat c' =
       (((Z.of_nat n / _samples_per_beat c) mod _time_sig_numerator c =? 0)
        && (Z.of_nat n mod _samples_per_beat c <? 10)).
Proof.
  intros Hspb Hnum c'.
  assert (Hok : clock_ok (Reset c)) by (unfold clock_ok; cbn; lia).
  unfold c', IsDownbeat, ShouldTriggerOnBeat.
  rewrite (proj1 (Ticks_closed_form (Reset c) n Hok)). cbn.
  done.
Qed.

End ClockMore.

(** ** Engine: quantisation, configuration and playback *)

Section EngineMore.
Import OverdubLooper History.
Context `{Platform} `{FloatOps}.

Lemma floats_in_bytes_small n :
  0 <= n -> sizeof_float * n < SIZE_MOD -> floats_in_bytes n = n.
Proof.
  unfold floats_in_bytes, size_mul, sizeof_float. intros Hn Hfit.
  rewrite wrap_small by lia. rewrite Z.mul_comm. apply Z.div_mul. lia.
Qed.

Lemma floats_in_bytes_le n : 0 <= n -> 0 <= floats_in_bytes n <= n.
Proof.
  unfold floats_in_bytes, size_mul, sizeof_float, wrap. intros Hn.
  pose proof SIZE_MOD_ge_2 as HM.
  assert (B : 0 <= (4 * n) mod SIZE_MOD < SIZE_MOD)
    by (apply Z.mod_pos_bound; lia).
  assert (L : (4 * n) mod SIZE_MOD <= 4 * n) by (apply Z.mod_le; lia).
  split; [apply Z.div_pos; lia | apply Z.div_le_upper_bound; lia].
Qed.

(** X8.  [QuantizeLength] returns its argument while quantisation is
    off; while it is on, with a positive beat count [b], it rounds the
    argument down to a multiple of [b]: the result is [L - L mod b]. *)
Theorem QuantizeLength_floor (st : t) (L : Z) :
  is_size L ->
  (_quantize st = false -> QuantizeLength L st = Some L)
  /\ (_quantize st = true -> 0 < _quantize_beats st ->
      exists r,
        QuantizeLength L st = Some r
        /\ r = L - L mod _quantize_beats st
        /\ r mod _quantize_beats st = 0
        /\ r <= L < r + _quantize_beats st).
Proof.
  intros [HL0 HL1]. unfold QuantizeLength. split.
  - by intros ->.
  - intros -> Hb. cbn [negb orb].
    destruct (_quantize_beats st =? 0) eqn:E; [apply Z.eqb_eq in E; lia |].
    rewrite size_div_Some by lia.
    pose proof (Z.div_mod L (_quantize_beats st) ltac:(lia)) as Hdm.
    pose proof (Z.mod_pos_bound L (_quantize_beats st) Hb) as Hm.
    assert (Hq : 0 <= L / _quantize_beats st) by (apply Z.div_pos; lia).
    exists (L / _quantize_beats st * _quantize_beats st).
    unfold size_mul. rewrite wrap_small by nia.
    repeat split; try lia. apply Z.mod_mul. lia.
Qed.

(** The loop of [ApplyCrossfade] assigns to samples only. *)
Lemma for_loop_crossfade_buffer (n : nat) :
  forall from (st st' : t),
    for_loop n from crossfade_body st = Some st' ->
    exists buf, st' = set_buffer buf st.
Proof.
  induction n as [| n IH]; intros from st st'; cbn [for_loop].
  - intros [= <-]. exists (_buffer st). by destruct st.
  - destruct (crossfade_body from st) as [st1 |] eqn:Hb; [|done].
    intros Hl. apply IH in Hl as [buf ->].
    unfold crossfade_body in Hb.
    destruct (crossfade_start_idx from st); [|done].
    destruct (crossfade_end_idx from st); [|done].
    destruct (array_read _ _); [|done].
    destruct (array_read _ _); [|done].
    destruct (array_write _ _ _); [|done].
    injection Hb as <-. by exists buf.
Qed.

Lemma StopRecording_buffer (st st' : t) :
  StopRecording st = Some st' ->
  exists buf, st' = set_buffer buf (set_is_recording false st).
Proof.
  unfold StopRecording, ApplyCrossfade.
  destruct (_ <? _).
  - intros [= <-]. exists (_buffer st). by destruct st.
  - apply for_loop_crossfade_buffer.
Qed.

(** [Process] keeps the undo history, the loop region and the size of
    the buffer, and the configuration. *)
Lemma Process_same_history (x y : float) (st st' : t) :
  Process x st = Some (y, st') ->
  same_history st st'
  /\ _quantize_beats st' = _quantize_beats st
  /\ _quantize st' = _quantize st
  /\ _samples_per_beat st' = _samples_per_beat st.
Proof.
  unfold Process.
  destruct (_is_recording st).
  { destruct (array_write _ _ _) as [buf |] eqn:Hw; [|done].
    apply array_write_length in Hw. cbn.
    destruct (_ <=? _); intros [= <- <-]; cbn; by repeat split. }
  destruct (_is_empty st); [intros [= <- <-]; by repeat split |].
  destruct (GetInterpolatedSample _ _) as [out |]; [|done].
  destruct (_overdubbing st).
  - destruct (to_size _) as [ph |]; [|done].
    destruct (size_rem _ _) as [idx |]; [|done].
    destruct (array_read _ _) as [old |]; [|done].
    destruct (array_write _ _ _) as [buf |] eqn:Hw; [|done].
    apply array_write_length in Hw. cbn.
    destruct (_reverse st); cbn;
      match goal with
      | |- context [if ?b then _ else _] => destruct b
      end; intros [= <- <-]; cbn; by repeat split.
  - cbn.
    destruct (_reverse st); cbn;
      match goal with
      | |- context [if ?b then _ else _] => destruct b
      end; intros [= <- <-]; cbn; by repeat split.
Qed.

(** What a call leaves of the configuration: the undo switch and count
    always; the beat count and the loop length, unless it sets them to a
    positive value. *)
Lemma call_members (c : Call) (st st' : t) :
  call c st = Some st' ->
  _undo_enabled st' = _undo_enabled st
  /\ _undo_count st' = _undo_count st
  /\ (_quantize_beats st' = _quantize_beats st \/ 0 < _quantize_beats st')
  /\ (_loop_length st' = _loop_length st \/ 1 <= _loop_length st').
Proof.
  destruct c; cbn [call].
  - intros [= <-]. cbn. tauto.
  - intros Hs. apply StopRecording_buffer in Hs as [buf ->]. cbn. tauto.
  - unfold StartOverdub, SaveUndoState.
    destruct (_ || _); [intros [= <-]; cbn; tauto |].
    destruct (_ !! _); [|done]. destruct (memcpy _ _ _ _ _); [|done]. cbn.
    destruct (size_rem _ _); [|done]. cbn.
    destruct (_ <? _); intros [= <-]; cbn; tauto.
  - intros [= <-]. cbn. tauto.
  - intros [= <-]. rewrite SetLoopRegion_loop_length.
    assert (Hrest : _undo_enabled (SetLoopRegion start_sample end_sample st)
                    = _undo_enabled st
                    /\ _undo_count (SetLoopRegion start_sample end_sample st)
                       = _undo_count st
                    /\ _quantize_beats
                         (SetLoopRegion start_sample end_sample st)
                       = _quantize_beats st).
    { unfold SetLoopRegion.
      destruct (region_clamped _ _); cbn;
        match goal with
        | |- context [if ?b then _ else _] => destruct b
        end; done. }
    destruct Hrest as (-> & -> & ->).
    repeat split; [by left |]. right.
    unfold region_clamped.
    destruct (_ <? 1) eqn:E; [lia | apply Z.ltb_ge in E; lia].
  - intros [= <-]. cbn. tauto.
  - intros [= <-]. cbn. tauto.
  - unfold SaveUndoState.
    destruct (_ || _); [intros [= <-]; cbn; tauto |].
    destruct (_ !! _); [|done]. destruct (memcpy _ _ _ _ _); [|done]. cbn.
    destruct (size_rem _ _); [|done]. cbn.
    destruct (_ <? _); intros [= <-]; cbn; tauto.
  - unfold Undo.
    destruct (_ || _); [intros [= <-]; cbn; tauto |].
    destruct (size_rem _ _); [|done]. cbn.
    destruct (_ !! _); [|done]. destruct (memcpy _ _ _ _ _); [|done]. cbn.
    destruct (_ <? _); intros [= <-]; cbn; tauto.
  - unfold Redo.
    destruct (_ || _); [intros [= <-]; cbn; tauto |].
    destruct (size_rem _ _); [|done]. cbn.
    destruct (_ !! _); [|done]. destruct (memcpy _ _ _ _ _); [|done]. cbn.
    intros [= <-]; cbn; tauto.
  - destruct (Process inp st) as [[y st1] |] eqn:Hstep; [|done].
    intros [= <-].
    destruct (Process_same_history _ _ _ _ Hstep)
      as ((_ & He & Hc & _ & _ & _ & _ & _ & Hl & _) & Hq & _).
    tauto.
  - intros [= <-]. cbn. tauto.
  - unfold SetLoop.
    destruct (to_size _) as [s |]; [|done]. cbn.
    destruct (to_size _) as [l |]; [|done]. cbn.
    destruct (l <? 1) eqn:E; intros [= <-]; cbn;
      repeat split; try tauto; right; [lia | apply Z.ltb_ge in E; lia].
  - unfold SetTempo.
    destruct (_ || _); [intros [= <-]; tauto |].
    destruct (to_size _) as [spb |]; [|done]. intros [= <-]. cbn. tauto.
  - intros [= <-]. cbn. repeat split; try tauto. right.
    destruct (0 <? beats) eqn:E; [apply Z.ltb_lt in E |]; lia.
Qed.

Lemma calls_members (cs : list Call) :
  forall st st' : t,
    calls cs st = Some st' ->
    _undo_enabled st' = _undo_enabled st
    /\ _undo_count st' = _undo_count st
    /\ (0 < _quantize_beats st -> 0 < _quantize_beats st')
    /\ (1 <= _loop_length st -> 1 <= _loop_length st').
Proof.
  induction cs as [| c cs' IH]; intros st st'; cbn [calls].
  - by intros [= <-].
  - destruct (call c st) as [st1 |] eqn:Hcall; [|done].
    intros Hrest. apply IH in Hrest as (He & Hc & Hq & Hl).
    apply call_members in Hcall as (He1 & Hc1 & Hq1 & Hl1).
    rewrite He, Hc, He1, Hc1. repeat split.
    + intros Hpos. apply Hq. destruct Hq1 as [-> |]; done.
    + intros Hpos. apply Hl. destruct Hl1 as [-> |]; done.
Qed.

(** The step of the seam crossfade: [Init] sets it to
    [1 / CROSSFADE_SAMPLES] and no call assigns it. *)
Lemma Init_inv_crossfade_samples buf length undo_bufs levels (st st' : t) :
  Init buf length undo_bufs levels st = Some st' ->
  _inv_crossfade_samples st' = fdiv fone (of_size CROSSFADE_SAMPLES).
Proof.
  unfold Init.
  destruct (match undo_bufs with Some _ => _ | None => _ end); [|done].
  destruct (memset_zero _ _); [|done]. by intros [= <-].
Qed.

Lemma call_inv_crossfade_samples (c : Call) (st st' : t) :
  call c st = Some st' ->
  _inv_crossfade_samples st' = _inv_crossfade_samples st.
Proof.
  destruct c; cbn [call].
  - by intros [= <-].
  - intros Hs. by apply StopRecording_buffer in Hs as [buf ->].
  - unfold StartOverdub, SaveUndoState.
    destruct (_ || _); [by intros [= <-] |].
    destruct (_ !! _); [|done]. destruct (memcpy _ _ _ _ _); [|done]. cbn.
    destruct (size_rem _ _); [|done]. cbn.
    destruct (_ <? _); by intros [= <-].
  - by intros [= <-].
  - intros [= <-]. unfold SetLoopRegion.
    destruct (region_clamped _ _); cbn;
      match goal with
      | |- context [if ?b then _ else _] => destruct b
      end; done.
  - by intros [= <-].
  - by intros [= <-].
  - unfold SaveUndoState.
    destruct (_ || _); [by intros [= <-] |].
    destruct (_ !! _); [|done]. destruct (memcpy _ _ _ _ _); [|done]. cbn.
    destruct (size_rem _ _); [|done]. cbn.
    destruct (_ <? _); by intros [= <-].
  - unfold Undo.
    destruct (_ || _); [by intros [= <-] |].
    destruct (size_rem _ _); [|done]. cbn.
    destruct (_ !! _); [|done]. destruct (memcpy _ _ _ _ _); [|done]. cbn.
    destruct (_ <? _); by intros [= <-].
  - unfold Redo.
    destruct (_ || _); [by intros [= <-] |].
    destruct (size_rem _ _); [|done]. cbn.
    destruct (_ !! _); [|done]. destruct (memcpy _ _ _ _ _); [|done]. cbn.
    by intros [= <-].
  - unfold Process.
    destruct (_is_recording st).
    { destruct (array_write _ _ _); [|done]. cbn.
      destruct (_ <=? _); by intros [= <-]. }
    destruct (_is_empty st); [by intros [= <-] |].
    destruct (GetInterpolatedSample _ _); [|done].
    destruct (_overdubbing st).
    + destruct (to_size _); [|done]. destruct (size_rem _ _); [|done].
      destruct (array_read _ _); [|done].
      destruct (array_write _ _ _); [|done]. cbn.
      destruct (_reverse st); cbn;
        match goal with
        | |- context [if ?b then _ else _] => destruct b
        end; by intros [= <-].
    + cbn. destruct (_reverse st); cbn;
        match goal with
        | |- context [if ?b then _ else _] => destruct b
        end; by intros [= <-].
  - by intros [= <-].
  - unfold SetLoop.
    destruct (to_size _); [|done]. cbn.
    destruct (to_size _) as [l |]; [|done]. cbn.
    destruct (l <? 1); by intros [= <-].
  - unfold SetTempo.
    destruct (_ || _); [by intros [= <-] |].
    destruct (to_size _); [|done]. by intros [= <-].
  - by intros [= <-].
Qed.

Lemma calls_inv_crossfade_samples (cs : list Call) :
  forall st st' : t,
    calls cs st = Some st' ->
    _inv_crossfade_samples st' = _inv_crossfade_samples st.
Proof.
  induction cs as [| c cs' IH]; intros st st'; cbn [calls].
  - by intros [= <-].
  - destruct (call c st) as [st1 |] eqn:Hcall; [|done].
    intros Hrest. apply IH in Hrest.
    apply call_inv_crossfade_samples in Hcall. congruence.
Qed.

(** X9.  The beat count stays positive through every sequence of calls,
    so in every state reached [QuantizeLength] and [QuantizeLoopRegion]
    return a value: none of their divisions is by zero. *)
Theorem calls_quantize_defined (cs : list Call) (st st' : t) :
  0 < _quantize_beats st ->
  calls cs st = Some st' ->
  0 < _quantize_beats st'
  /\ (forall L, is_Some (QuantizeLength L st'))
  /\ (forall s e, is_Some (QuantizeLoopRegion s e st')).
Proof.
  intros Hpos Hrun.
  apply calls_members in Hrun as (_ & _ & Hq & _).
  specialize (Hq Hpos). split; [exact Hq |]. split.
  - intros L. unfold QuantizeLength.
    destruct (_ || _); [done |]. rewrite size_div_Some by lia. done.
  - intros s e. unfold QuantizeLoopRegion.
    destruct (negb _ || (_samples_per_beat st' =? 0)) eqn:E; [done |].
    apply orb_false_elim in E as [_ E]. apply Z.eqb_neq in E.
    cbv zeta. rewrite (size_div_Some _ 2) by lia. cbv beta iota.
    rewrite size_div_Some by exact E. cbv beta iota.
    rewrite size_div_Some by exact E. cbv beta iota.
    destruct (_ <? _quantize_beats st'); [done |].
    rewrite !size_div_Some by lia. done.
Qed.

(** X10.  [SetLoopRegion] leaves a loop of at least one sample for every
    pair of arguments, and no later call brings the loop length below
    one. *)
Theorem loop_length_positive (cs : list Call) (s e : Z) (st st' : t) :
  calls cs (SetLoopRegion s e st) = Some st' ->
  1 <= _loop_length (SetLoopRegion s e st) < SIZE_MOD
  /\ 1 <= _loop_length st'.
Proof.
  intros Hrun.
  assert (Hl : 1 <= _loop_length (SetLoopRegion s e st) < SIZE_MOD).
  { rewrite SetLoopRegion_loop_length. unfold region_clamped.
    pose proof SIZE_MOD_ge_2.
    pose proof (wrap_range (e - s + 1)) as Hw.
    rewrite region_length_wrap.
    destruct (_ <? 1) eqn:E; [lia | apply Z.ltb_ge in E; lia]. }
  split; [exact Hl |].
  apply calls_members in Hrun as (_ & _ & _ & Hkeep). apply Hkeep. lia.
Qed.

(** X11.  An engine whose undo switch is off (as [Init] leaves it
    without undo buffers) stays so through every sequence of calls:
    [CanUndo] and [CanRedo] are false, and [SaveUndoState], [Undo] and
    [Redo] change nothing. *)
Theorem undo_disabled_forever (cs : list Call) (st st' : t) :
  _undo_enabled st = false ->
  calls cs st = Some st' ->
  CanUndo st' = false /\ CanRedo st' = false
  /\ SaveUndoState st' = Some st'
  /\ Undo st' = Some (false, st') /\ Redo st' = Some (false, st').
Proof.
  intros Hoff Hrun.
  apply calls_members in Hrun as (He & _).
  rewrite Hoff in He.
  unfold CanUndo, CanRedo, SaveUndoState, Undo, Redo. rewrite He. done.
Qed.

(** *** [memcpy] *)

Lemma memcpy_Some dst doff src soff n :
  0 <= doff -> 0 <= soff -> 0 <= n ->
  doff + n <= array_length dst -> soff + n <= array_length src ->
  memcpy dst doff src soff n =
    Some (take (Z.to_nat doff) dst
          ++ take (Z.to_nat n) (drop (Z.to_nat soff) src)
          ++ drop (Z.to_nat (doff + n)) dst).
Proof.
  intros H1 H2 H3 H4 H5. unfold memcpy.
  destruct (_ && _) eqn:E; [done |].
  repeat (apply andb_false_iff in E as [E | E]); apply Z.leb_gt in E; lia.
Qed.

Lemma memcpy_inv dst doff src soff n r :
  memcpy dst doff src soff n = Some r ->
  (0 <= doff /\ 0 <= soff /\ 0 <= n
   /\ doff + n <= array_length dst /\ soff + n <= array_length src)
  /\ r = take (Z.to_nat doff) dst
         ++ take (Z.to_nat n) (drop (Z.to_nat soff) src)
         ++ drop (Z.to_nat (doff + n)) dst.
Proof.
  unfold memcpy. destruct (_ && _) eqn:E; [|done]. intros [= <-].
  repeat (apply andb_prop in E as [E ?]).
  repeat match goal with
         | Hc : (_ <=? _) = true |- _ => apply Z.leb_le in Hc
         end.
  done.
Qed.

(** The samples outside the destination range are not written. *)
Lemma memcpy_outside dst doff src soff n r :
  memcpy dst doff src soff n = Some r ->
  forall k : nat,
    Z.of_nat k < doff \/ doff + n <= Z.of_nat k -> r !! k = dst !! k.
Proof.
  intros Hcopy. apply memcpy_inv in Hcopy as [(H1 & H2 & H3 & H4 & H5) ->].
  unfold array_length in *. intros k [Hk | Hk].
  - rewrite lookup_app_l by (rewrite length_take; lia).
    rewrite lookup_take. destruct (decide _); [done | lia].
  - rewrite lookup_app_r by (rewrite length_take; lia).
    rewrite lookup_app_r
      by (rewrite !length_take, length_drop; lia).
    rewrite lookup_drop, !length_take, length_drop. f_equal. lia.
Qed.

(** The destination range holds the source range. *)
Lemma memcpy_region dst doff src soff n r :
  memcpy dst doff src soff n = Some r ->
  take (Z.to_nat n) (drop (Z.to_nat doff) r)
  = take (Z.to_nat n) (drop (Z.to_nat soff) src).
Proof.
  intros Hcopy. apply memcpy_inv in Hcopy as [(H1 & H2 & H3 & H4 & H5) ->].
  unfold array_length in *.
  rewrite drop_app_length' by (rewrite length_take; lia).
  rewrite take_app_length' by (rewrite length_take, length_drop; lia).
  done.
Qed.

(** *** The cursors of the snapshot ring *)

(** Advancing the write cursor as [SaveUndoState] does, and stepping
    back from there as [Undo] does. *)
Lemma undo_cursor_back w count :
  0 <= w < count -> count <= MAX_UNDO_LEVELS ->
  size_rem (size_add w 1) count = Some ((w + 1) mod count)
  /\ size_rem (size_add (size_sub ((w + 1) mod count) 1) count) count
     = Some w.
Proof.
  intros Hw Hc. pose proof SIZE_MOD_min as HM. unfold MAX_UNDO_LEVELS in Hc.
  rewrite !size_rem_Some by lia. unfold size_add, size_sub.
  rewrite (wrap_small (w + 1)) by lia. split; [done |]. f_equal.
  destruct (Z.eq_dec (w + 1) count) as [E | E].
  - rewrite E, Z_mod_same_full. rewrite (wrap_neg (0 - 1)) by lia.
    rewrite wrap_over by lia. rewrite Z.mod_small; lia.
  - rewrite (Z.mod_small (w + 1)) by lia.
    rewrite (wrap_small (w + 1 - 1)) by lia. rewrite wrap_small by lia.
    replace (w + 1 - 1 + count) with (w + 1 * count) by lia.
    rewrite Z.mod_add by lia. apply Z.mod_small; lia.
Qed.

(** [SaveUndoState] on an object that is ready for it. *)
Lemma SaveUndoState_ready (st : t) :
  save_ready st ->
  exists st1 slot',
    SaveUndoState st = Some st1
    /\ take (Z.to_nat (_loop_length st)) slot' = region_content st
    /\ _loop_length st <= array_length slot'
    /\ _undo_buffers st1
       = <[Z.to_nat (_undo_write_index st) := slot']> (_undo_buffers st)
    /\ _undo_enabled st1 = true
    /\ _undo_count st1 = _undo_count st
    /\ _undo_read_index st1
       = (_undo_write_index st + 1) mod _undo_count st
    /\ _undo_depth st1 <> 0
    /\ _loop_start st1 = _loop_start st
    /\ _loop_length st1 = _loop_length st
    /\ _buffer st1 = _buffer st
    /\ _overdubbing st1 = _overdubbing st.
Proof.
  intros (He & Hw & Hc & Hd & Hs & HL & Hfit & Hin & slot & Hslot & Hroom).
  destruct (undo_cursor_back _ _ Hw Hc) as [Hfwd _].
  pose proof (floats_in_bytes_small _ HL Hfit) as Hn.
  pose proof (memcpy_Some slot 0 (_buffer st) (_loop_start st)
                (_loop_length st) ltac:(lia) Hs HL ltac:(lia) Hin) as Hcopy.
  set (slot' := _ ++ _ ++ _) in Hcopy.
  assert (Htake : take (Z.to_nat (_loop_length st)) slot' = region_content st).
  { pose proof (memcpy_region _ _ _ _ _ _ Hcopy) as Hr.
    change (Z.to_nat 0) with 0%nat in Hr. rewrite drop_0 in Hr. exact Hr. }
  assert (Hlen : _loop_length st <= array_length slot').
  { rewrite (memcpy_length _ _ _ _ _ _ Hcopy). exact Hroom. }
  pose proof SIZE_MOD_min as HM. unfold MAX_UNDO_LEVELS in Hc.
  unfold SaveUndoState. rewrite He.
  destruct (_undo_count st =? 0) eqn:E; [apply Z.eqb_eq in E; lia |].
  cbn [negb orb]. rewrite Hslot, Hn, Hcopy.
  cbn [set_undo_buffers _undo_write_index _undo_count].
  rewrite Hfwd.
  cbn [set_undo_buffers set_undo_write_index set_undo_read_index
       _undo_write_index _undo_count _undo_depth].
  destruct (_undo_depth st <? _undo_count st) eqn:Ed.
  - apply Z.ltb_lt in Ed. eexists _, slot'. split; [reflexivity |].
    cbn. unfold size_add. rewrite wrap_small by lia.
    repeat split; try done. lia.
  - apply Z.ltb_ge in Ed. eexists _, slot'. split; [reflexivity |].
    cbn. repeat split; try done. lia.
Qed.

(** [Undo] when it has a snapshot to copy. *)
Lemma Undo_Some (st : t) r slot buf :
  _undo_enabled st = true -> _undo_depth st <> 0 ->
  size_rem (size_add (size_sub (_undo_read_index st) 1) (_undo_count st))
           (_undo_count st) = Some r ->
  _undo_buffers st !! Z.to_nat r = Some slot ->
  memcpy (_buffer st) (_loop_start st) slot 0
         (floats_in_bytes (_loop_length st)) = Some buf ->
  exists st',
    Undo st = Some (true, st')
    /\ _buffer st' = buf
    /\ _loop_start st' = _loop_start st
    /\ _loop_length st' = _loop_length st.
Proof.
  intros He Hd Hr Hslot Hcopy. unfold Undo. rewrite He.
  destruct (_undo_depth st =? 0) eqn:E; [apply Z.eqb_eq in E; lia |].
  cbn [negb orb]. rewrite Hr.
  cbn [set_undo_read_index _undo_buffers _undo_read_index _buffer
       _loop_start _loop_length].
  rewrite Hslot, Hcopy.
  match goal with
  | |- context [if ?b then _ else _] => destruct b
  end; eexists; (split; [reflexivity | done]).
Qed.

(** A snapshot taken by [SaveUndoState] is what the next [Undo] copies
    back, whatever has been written to the buffer in between. *)
Lemma Save_then_Undo (st : t) :
  save_ready st ->
  exists st1,
    SaveUndoState st = Some st1
    /\ _overdubbing st1 = _overdubbing st
    /\ _buffer st1 = _buffer st
    /\ forall st2,
         same_history st1 st2 ->
         exists st3,
           Undo st2 = Some (true, st3)
           /\ region_content st3 = region_content st
           /\ outside_region_kept st2 st3.
Proof.
  intros Hready.
  destruct (SaveUndoState_ready st Hready)
    as (st1 & slot' & Hsave & Htake & Hlen & Hb1 & He1 & Hc1 & Hr1 & Hd1
        & Hs1 & Hl1 & Hbuf1 & Ho1).
  destruct Hready
    as (He & Hw & Hc & Hd & Hs & HL & Hfit & Hin & slot & Hslot & Hroom).
  destruct (undo_cursor_back _ _ Hw Hc) as [_ Hback].
  pose proof (floats_in_bytes_small _ HL Hfit) as Hn.
  exists st1. split; [exact Hsave |]. split; [exact Ho1 |].
  split; [exact Hbuf1 |].
  intros st2 (Hb2 & He2 & Hc2 & Hw2 & Hr2 & Hd2 & Hrd2 & Hs2 & Hl2 & Hlen2).
  assert (Hcopy : exists buf,
            memcpy (_buffer st2) (_loop_start st2) slot' 0
                   (floats_in_bytes (_loop_length st2)) = Some buf).
  { eexists. rewrite Hs2, Hl2, Hs1, Hl1, Hn. apply memcpy_Some; try lia.
    rewrite Hlen2, Hbuf1. exact Hin. }
  destruct Hcopy as [buf Hcopy].
  destruct (Undo_Some st2 (_undo_write_index st) slot' buf)
    as (st3 & Hundo & Hb3 & Hs3 & Hl3).
  - by rewrite He2.
  - by rewrite Hd2.
  - rewrite Hr2, Hc2, Hr1, Hc1. exact Hback.
  - rewrite Hb2, Hb1. apply list_lookup_insert_eq.
    apply lookup_lt_Some in Hslot. exact Hslot.
  - exact Hcopy.
  - exists st3. split; [exact Hundo |]. split.
    + unfold region_content at 1. rewrite Hb3, Hs3, Hl3, Hs2, Hl2, Hs1, Hl1.
      pose proof Hcopy as Hcopy'. rewrite Hs2, Hl2, Hs1, Hl1, Hn in Hcopy'.
      rewrite (memcpy_region _ _ _ _ _ _ Hcopy').
      change (Z.to_nat 0) with 0%nat. rewrite drop_0. exact Htake.
    + split.
      * rewrite Hb3. apply (memcpy_length _ _ _ _ _ _ Hcopy).
      * intros k Hk. rewrite Hb3.
        apply (memcpy_outside _ _ _ _ _ _ Hcopy).
        rewrite Hl2, Hl1, Hn. rewrite Hl2, Hl1 in Hk. exact Hk.
Qed.

(** X12.  When the object is ready for a save, [SaveUndoState] succeeds
    and leaves the buffer as it is, and whatever is then written to the
    buffer, the next [Undo] returns true and puts the saved samples back
    into the loop region, writing no sample outside it. *)
Theorem Undo_after_Save (st : t) :
  save_ready st ->
  exists st1,
    SaveUndoState st = Some st1
    /\ _buffer st1 = _buffer st
    /\ forall st2,
         same_history st1 st2 ->
         exists st3,
           Undo st2 = Some (true, st3)
           /\ region_content st3 = region_content st
           /\ outside_region_kept st2 st3.
Proof.
  intros Hready.
  destruct (Save_then_Undo st Hready) as (st1 & Hsave & _ & Hbuf & Hundo).
  by exists st1.
Qed.

Lemma same_history_trans (a b c : t) :
  same_history a b -> same_history b c -> same_history a c.
Proof.
  unfold same_history. intros Hab Hbc.
  repeat match goal with
         | Hx : _ /\ _ |- _ => destruct Hx
         end.
  repeat split; congruence.
Qed.

Lemma ProcessBlock_same_history (ins : list float) :
  forall (st : t) outs st',
    ProcessBlock ins st = Some (outs, st') -> same_history st st'.
Proof.
  induction ins as [| x ins' IH]; intros st outs st'; cbn [ProcessBlock].
  - intros [= <- <-]. by repeat split.
  - destruct (Process x st) as [[y st1] |] eqn:Hstep; [|done].
    destruct (ProcessBlock ins' st1) as [[ys st2] |] eqn:Hrest; [|done].
    intros [= <- <-].
    apply (same_history_trans _ st1).
    + by apply (Process_same_history x y).
    + by apply (IH _ ys).
Qed.

(** X13.  An overdub take can be undone: when the object is ready for a
    save, [StartOverdub] succeeds and sets the overdub flag, and after
    any block of samples processed from there, [Undo] returns true and
    the loop region holds the samples it held before [StartOverdub]. *)
Theorem Overdub_then_Undo (st : t) (ins : list float) :
  save_ready st ->
  exists st1,
    StartOverdub st = Some st1
    /\ _overdubbing st1 = true
    /\ forall outs st2,
         ProcessBlock ins st1 = Some (outs, st2) ->
         exists st3,
           Undo st2 = Some (true, st3)
           /\ region_content st3 = region_content st.
Proof.
  intros Hready.
  destruct (Save_then_Undo st Hready) as (st1 & Hsave & _ & _ & Hundo).
  exists (set_overdubbing true st1). unfold StartOverdub. rewrite Hsave.
  split; [reflexivity |]. split; [reflexivity |].
  intros outs st2 Hblock.
  apply ProcessBlock_same_history in Hblock.
  destruct (Hundo st2) as (st3 & Hu & Hregion & _).
  { apply (same_history_trans _ (set_overdubbing true st1));
      [by repeat split | exact Hblock]. }
  by exists st3.
Qed.

(** X14.  While neither recording nor overdubbing, [Process] only reads
    the object: it assigns to the playhead and to nothing else, its
    result does not depend on the input sample, an empty looper returns
    silence and is left as it was, and otherwise the output is the
    interpolated sample at the playhead. *)
Theorem Process_playback_readonly (st st' : t) (inp out : float) :
  _is_recording st = false -> _overdubbing st = false ->
  Process inp st = Some (out, st') ->
  st' = set_play_head (_play_head st') st
  /\ (forall inp', Process inp' st = Some (out, st'))
  /\ (_is_empty st = true -> out = fzero /\ st' = st)
  /\ (_is_empty st = false ->
      GetInterpolatedSample (_play_head st) st = Some out).
Proof.
  intros Hrec Hov Hstep.
  assert (Hany : forall inp', Process inp' st = Process inp st).
  { intros inp'. unfold Process. rewrite Hrec, Hov. reflexivity. }
  split; [| split; [intros inp'; by rewrite Hany |]].
  - revert Hstep. unfold Process. rewrite Hrec, Hov.
    destruct (_is_empty st); [intros [= <- <-]; by destruct st |].
    destruct (GetInterpolatedSample _ _) as [o |]; [|done].
    destruct (_reverse st);
      match goal with
      | |- context [if ?b then _ else _] => destruct b
      end; intros [= <- <-]; reflexivity.
  - revert Hstep. unfold Process. rewrite Hrec, Hov.
    destruct (_is_empty st); [intros [= <- <-]; by split |].
    destruct (GetInterpolatedSample _ _) as [o |]; [|done].
    split; [done |]. intros _. revert Hstep.
    destruct (_reverse st);
      match goal with
      | |- context [if ?b then _ else _] => destruct b
      end; intros [= <- <-]; reflexivity.
Qed.

(** X15.  [Undo] returns what [CanUndo] reports and [Redo] what
    [CanRedo] reports; when the result is false the object is unchanged,
    and in every case the buffer keeps its size and its samples outside
    the loop region. *)
Theorem Undo_Redo_outcome (st st' : t) (ok : bool) :
  0 <= _undo_depth st -> 0 <= _redo_depth st -> 0 <= _loop_length st ->
  (Undo st = Some (ok, st') ->
   ok = CanUndo st /\ (ok = false -> st' = st) /\ outside_region_kept st st')
  /\ (Redo st = Some (ok, st') ->
      ok = CanRedo st /\ (ok = false -> st' = st)
      /\ outside_region_kept st st').
Proof.
  intros Hd Hr HL. pose proof (floats_in_bytes_le _ HL) as Hn.
  assert (Hrefl : outside_region_kept st st) by (by split).
  split.
  - unfold Undo, CanUndo.
    destruct (_undo_enabled st); cbn [negb orb andb];
      [| intros [= <- <-]; done].
    destruct (_undo_depth st =? 0) eqn:E.
    { apply Z.eqb_eq in E. rewrite E. intros [= <- <-]. done. }
    apply Z.eqb_neq in E.
    destruct (size_rem _ _) as [r |]; [|done].
    cbn [set_undo_read_index _undo_buffers _undo_read_index _buffer
         _loop_start _loop_length].
    destruct (_ !! _) as [slot |]; [|done].
    destruct (memcpy _ _ _ _ _) as [buf |] eqn:Hcopy; [|done].
    assert (Hout : forall x : t, _buffer x = buf -> outside_region_kept st x).
    { intros x Hx. unfold outside_region_kept. rewrite Hx.
      split; [apply (memcpy_length _ _ _ _ _ _ Hcopy) |].
      intros k Hk. apply (memcpy_outside _ _ _ _ _ _ Hcopy). lia. }
    match goal with
    | |- context [if ?b then _ else _] => destruct b
    end; intros [= <- <-];
      (split; [symmetry; apply Z.ltb_lt; lia |]);
      (split; [done | by apply Hout]).
  - unfold Redo, CanRedo.
    destruct (_undo_enabled st); cbn [negb orb andb];
      [| intros [= <- <-]; done].
    destruct (_redo_depth st =? 0) eqn:E.
    { apply Z.eqb_eq in E. rewrite E. intros [= <- <-]. done. }
    apply Z.eqb_neq in E.
    destruct (size_rem _ _) as [r |]; [|done].
    cbn [set_undo_read_index _undo_buffers _undo_read_index _buffer
         _loop_start _loop_length].
    destruct (_ !! _) as [slot |]; [|done].
    destruct (memcpy _ _ _ _ _) as [buf |] eqn:Hcopy; [|done].
    intros [= <- <-].
    split; [symmetry; apply Z.ltb_lt; lia |].
    split; [done |].
    split; [apply (memcpy_length _ _ _ _ _ _ Hcopy) |].
    intros k Hk. apply (memcpy_outside _ _ _ _ _ _ Hcopy). lia.
Qed.

(** The loop of [Init] copies the first [n] buffer pointers, from [i]
    on, and leaves the other slots. *)
Lemma copy_undo_pointers_slots (n : nat) :
  forall (i : nat) (bufs slots slots' : list (list float)),
    copy_undo_pointers n i bufs slots = Some slots' ->
    length slots' = length slots
    /\ forall k : nat,
         slots' !! k
         = if decide (i <= k < i + n)%nat then bufs !! k else slots !! k.
Proof.
  induction n as [| n IH]; intros i bufs slots slots'; cbn [copy_undo_pointers].
  - intros [= <-]. split; [done |]. intros k.
    destruct (decide _); [lia | done].
  - destruct (bufs !! i) as [p |] eqn:Hp; [|done].
    destruct (i <? length slots)%nat eqn:Hi; [|done].
    apply Nat.ltb_lt in Hi.
    intros Hrest. apply IH in Hrest as [Hlen Hk].
    rewrite length_insert in Hlen. split; [exact Hlen |].
    intros k. rewrite Hk.
    destruct (decide (S i <= k < S i + n)%nat).
    + destruct (decide _); [done | lia].
    + destruct (decide (i <= k < i + S n)%nat).
      * assert (k = i) as -> by lia.
        rewrite list_lookup_insert_eq by exact Hi. by rewrite Hp.
      * rewrite list_lookup_insert_ne by lia. done.
Qed.

(** X16.  [Init] stores the buffer and its length, marks the looper
    empty, forward and at speed 1, enables undo exactly when undo
    buffers are given and the level count is positive, with
    [min (levels, MAX_UNDO_LEVELS)] slots taken from the given pointers,
    and zeroes the buffer.  It does not assign to the recording and
    overdub flags, the heads, the loop region, or the undo cursors and
    depths. *)
Theorem Init_members (buf : list float) (length : Z)
    (undo_bufs : option (list (list float))) (levels : Z) (st st' : t) :
  Init buf length undo_bufs levels st = Some st' ->
  (_buffer_length st' = length /\ _is_empty st' = true
   /\ _reverse st' = false /\ _playback_speed st' = fone)
  /\ _undo_enabled st'
     = match undo_bufs with Some _ => 0 <? levels | None => false end
  /\ _undo_count st'
     = (if _undo_enabled st' then Z.min levels MAX_UNDO_LEVELS else 0)
  /\ (forall bufs (k : nat),
        undo_bufs = Some bufs -> Z.of_nat k < _undo_count st' ->
        _undo_buffers st' !! k = bufs !! k)
  /\ (0 <= length -> sizeof_float * length < SIZE_MOD ->
      _buffer st'
      = replicate (Z.to_nat length) fzero ++ drop (Z.to_nat length) buf)
  /\ (_is_recording st' = _is_recording st
      /\ _overdubbing st' = _overdubbing st
      /\ _play_head st' = _play_head st
      /\ _rec_head st' = _rec_head st
      /\ _loop_start st' = _loop_start st
      /\ _loop_length st' = _loop_length st
      /\ _undo_write_index st' = _undo_write_index st
      /\ _undo_read_index st' = _undo_read_index st
      /\ _undo_depth st' = _undo_depth st
      /\ _redo_depth st' = _redo_depth st).
Proof.
  unfold Init.
  set (st1 := set_buffer_length length (set_buffer buf st)).
  assert (Hzero : forall zeroed,
            memset_zero buf (floats_in_bytes length) = Some zeroed ->
            0 <= length -> sizeof_float * length < SIZE_MOD ->
            zeroed = replicate (Z.to_nat length) fzero
                     ++ drop (Z.to_nat length) buf).
  { intros zeroed Hz Hnn Hfit. rewrite floats_in_bytes_small in Hz by done.
    unfold memset_zero in Hz. destruct (_ && _); [|done].
    by injection Hz as <-. }
  destruct undo_bufs as [bufs |]; [destruct (0 <? levels) eqn:Hlev |].
  - set (count := if levels <=? MAX_UNDO_LEVELS then levels
                  else MAX_UNDO_LEVELS).
    assert (Hcount : count = Z.min levels MAX_UNDO_LEVELS).
    { unfold count. destruct (levels <=? MAX_UNDO_LEVELS) eqn:E;
        [apply Z.leb_le in E | apply Z.leb_gt in E]; lia. }
    destruct (copy_undo_pointers _ _ _ _) as [slots |] eqn:Hcp; [|done].
    apply copy_undo_pointers_slots in Hcp as [_ Hslots].
    cbn [set_undo_buffers set_undo_count set_undo_enabled _buffer
         _buffer_length st1 set_buffer_length set_buffer].
    destruct (memset_zero _ _) as [zeroed |] eqn:Hz; [|done].
    intros [= <-]. cbn.
    repeat split; try done.
    + intros bufs' k [= <-] Hk. rewrite Hslots.
      destruct (decide _); [done | lia].
    + by apply Hzero.
  - cbn [set_undo_count set_undo_enabled _buffer _buffer_length st1
         set_buffer_length set_buffer].
    destruct (memset_zero _ _) as [zeroed |] eqn:Hz; [|done].
    intros [= <-]. cbn.
    repeat split; try done.
    + intros bufs' k _ Hk. lia.
    + by apply Hzero.
  - cbn [set_undo_count set_undo_enabled _buffer _buffer_length st1
         set_buffer_length set_buffer].
    destruct (memset_zero _ _) as [zeroed |] eqn:Hz; [|done].
    intros [= <-]. cbn.
    repeat split; try done.
    by apply Hzero.
Qed.
End EngineMore.

(** ** Buffer utilities and effects *)

Section DSPMore.
Import OverdubLooper DSPUtils LoopEffects.
Context `{Platform} `{FloatOps}.

Lemma array_read_lookup a i :
  0 <= i < array_length a -> array_read a i = a !! Z.to_nat i.
Proof.
  intros Hi. unfold array_read.
  destruct (_ && _) eqn:E; [done |].
  apply andb_false_iff in E as [E | E];
    [apply Z.leb_gt in E | apply Z.ltb_ge in E]; lia.
Qed.

(** An assignment to [a[i]] is defined exactly when a read of it is. *)
Lemma array_write_read a i v :
  array_write a i v = do x <- array_read a i; array_write a i v.
Proof.
  unfold array_read, array_write.
  destruct (_ && _) eqn:E; [|done].
  apply andb_prop in E as [E1 E2].
  apply Z.leb_le in E1. apply Z.ltb_lt in E2. unfold array_length in E2.
  destruct (a !! Z.to_nat i) eqn:Hl; [done |].
  apply lookup_ge_None in Hl. lia.
Qed.

(** A loop whose iteration [i] assigns [f i a[i]] to [a[i]]. *)
Lemma array_loop_pointwise (f : Z -> float -> float) body (n : nat) :
  forall (from : Z) (a : list float),
    0 <= from -> from + Z.of_nat n <= array_length a ->
    (forall i b,
       from <= i < from + Z.of_nat n ->
       body i b = do x <- array_read b i; array_write b i (f i x)) ->
    exists a',
      array_loop n from body a = Some a'
      /\ array_length a' = array_length a
      /\ forall k : nat,
           a' !! k
           = if decide (from <= Z.of_nat k < from + Z.of_nat n)
             then f (Z.of_nat k) <$> a !! k else a !! k.
Proof.
  induction n as [| n IH]; intros from a Hfrom Hfit Hbody; cbn [array_loop].
  - exists a. repeat split. intros k. destruct (decide _); [lia | done].
  - rewrite Hbody by lia.
    destruct (array_read_Some a from ltac:(lia)) as (x & Hr & Hx).
    rewrite Hr, array_write_Some by lia.
    set (a1 := <[Z.to_nat from := f from x]> a).
    assert (Hlen1 : array_length a1 = array_length a)
      by (unfold array_length, a1; by rewrite length_insert).
    destruct (IH (from + 1) a1) as (a' & Hloop & Hlen & Hk).
    + lia.
    + rewrite Hlen1. lia.
    + intros i b Hi. apply Hbody. lia.
    + exists a'. split; [exact Hloop |]. split; [congruence |].
      intros k. rewrite Hk.
      destruct (decide (Z.of_nat k = from)) as [E | E].
      * assert (Ek : k = Z.to_nat from) by lia.
        unfold a1. rewrite Ek, list_lookup_insert_eq
          by (unfold array_length in Hfit; lia).
        rewrite Hx. rewrite Z2Nat.id by lia.
        destruct (decide _); [lia |]. destruct (decide _); [done | lia].
      * unfold a1. rewrite list_lookup_insert_ne by lia.
        destruct (decide (from + 1 <= _ < _)); destruct (decide _);
          (done || lia).
Qed.

(** X17.  [MixBuffersWithGain] on [length] samples that both arrays
    hold: sample [k < length] of the destination becomes
    [dest[k] + src[k] * gain], the rest of the destination is not
    written. *)
Theorem MixBuffersWithGain_samples (dest src : list float) (length : Z)
    (gain : float) :
  0 <= length -> length <= array_length dest -> length <= array_length src ->
  exists dest',
    MixBuffersWithGain dest src length gain = Some dest'
    /\ array_length dest' = array_length dest
    /\ (forall (k : nat) x y,
          Z.of_nat k < length -> dest !! k = Some x -> src !! k = Some y ->
          dest' !! k = Some (fadd x (fmul y gain)))
    /\ (forall k : nat, length <= Z.of_nat k -> dest' !! k = dest !! k).
Proof.
  intros Hn0 Hd Hs. unfold MixBuffersWithGain.
  destruct (array_loop_pointwise
              (fun i x =>
                 fadd x (fmul (default fzero (src !! Z.to_nat i)) gain))
              (fun i d =>
                 do x <- array_read d i;
                 do y <- array_read src i;
                 array_write d i (fadd x (fmul y gain)))
              (Z.to_nat length) 0 dest)
    as (dest' & Hloop & Hlen & Hk); [lia | lia | |].
  - intros i b Hi. rewrite (array_read_lookup src) by lia.
    destruct (array_read b i); [|done].
    destruct (src !! Z.to_nat i) eqn:E; [done |].
    apply lookup_ge_None in E. unfold array_length in Hs. lia.
  - exists dest'. split; [exact Hloop |]. split; [exact Hlen |]. split.
    + intros k x y Hlt Hx Hy. rewrite Hk.
      destruct (decide _); [|lia]. rewrite Hx, Nat2Z.id, Hy. done.
    + intros k Hge. rewrite Hk. destruct (decide _); [lia | done].
Qed.

(** X18.  [CopyWithGain] on [length] samples that both arrays hold:
    sample [k < length] of the destination becomes [src[k] * gain],
    whatever it held, and the rest of the destination is not written. *)
Theorem CopyWithGain_samples (dest src : list float) (length : Z)
    (gain : float) :
  0 <= length -> length <= array_length dest -> length <= array_length src ->
  exists dest',
    CopyWithGain dest src length gain = Some dest'
    /\ array_length dest' = array_length dest
    /\ (forall (k : nat) y,
          Z.of_nat k < length -> src !! k = Some y ->
          dest' !! k = Some (fmul y gain))
    /\ (forall k : nat, length <= Z.of_nat k -> dest' !! k = dest !! k).
Proof.
  intros Hn0 Hd Hs. unfold CopyWithGain.
  destruct (array_loop_pointwise
              (fun i _ => fmul (default fzero (src !! Z.to_nat i)) gain)
              (fun i d =>
                 do y <- array_read src i;
                 array_write d i (fmul y gain))
              (Z.to_nat length) 0 dest)
    as (dest' & Hloop & Hlen & Hk); [lia | lia | |].
  - intros i b Hi. rewrite (array_read_lookup src) by lia.
    destruct (src !! Z.to_nat i) eqn:E.
    + cbn. apply array_write_read.
    + apply lookup_ge_None in E. unfold array_length in Hs. lia.
  - exists dest'. split; [exact Hloop |]. split; [exact Hlen |]. split.
    + intros k y Hlt Hy. rewrite Hk.
      destruct (decide _); [|lia]. rewrite Nat2Z.id, Hy.
      destruct (dest !! k) eqn:E; [done |].
      apply lookup_ge_None in E. unfold array_length in Hd. lia.
    + intros k Hge. rewrite Hk. destruct (decide _); [lia | done].
Qed.

(** X19.  [ApplyLinearFade] on [length] samples that the buffer holds
    multiplies sample [k < length] by its factor: [k / (length - 1)] for
    a fade in, one minus that for a fade out.  The rest of the buffer is
    not written. *)
Theorem ApplyLinearFade_samples (buffer : list float) (length : Z)
    (fade_in : bool) :
  0 <= length -> length <= array_length buffer ->
  exists buffer',
    ApplyLinearFade buffer length fade_in = Some buffer'
    /\ array_length buffer' = array_length buffer
    /\ (forall (k : nat) x,
          Z.of_nat k < length -> buffer !! k = Some x ->
          buffer' !! k
          = Some (fmul x (fade_factor length (Z.of_nat k) fade_in)))
    /\ (forall k : nat, length <= Z.of_nat k -> buffer' !! k = buffer !! k).
Proof.
  intros Hn0 Hb. unfold ApplyLinearFade.
  destruct (length =? 0) eqn:E.
  { apply Z.eqb_eq in E. exists buffer. repeat split; try done.
    intros k x Hlt. lia. }
  destruct (array_loop_pointwise
              (fun i x => fmul x (fade_factor length i fade_in))
              (fun i b =>
                 do x <- array_read b i;
                 array_write b i (fmul x (fade_factor length i fade_in)))
              (Z.to_nat length) 0 buffer)
    as (buffer' & Hloop & Hlen & Hk); [lia | lia | done |].
  exists buffer'. split; [exact Hloop |]. split; [exact Hlen |]. split.
  - intros k x Hlt Hx. rewrite Hk.
    destruct (decide _); [|lia]. by rewrite Hx.
  - intros k Hge. rewrite Hk. destruct (decide _); [lia | done].
Qed.

(** X20.  [Crossfade] on [length] samples that the three arrays hold:
    sample [k < length] of the destination becomes
    [a[k] * (1 - fade) + b[k] * fade] with [fade = k / (length - 1)],
    whatever it held, and the rest of the destination is not written. *)
Theorem Crossfade_samples (bufferA bufferB dest : list float) (length : Z) :
  0 <= length -> length <= array_length bufferA ->
  length <= array_length bufferB -> length <= array_length dest ->
  exists dest',
    Crossfade bufferA bufferB dest length = Some dest'
    /\ array_length dest' = array_length dest
    /\ (forall (k : nat) a b,
          Z.of_nat k < length ->
          bufferA !! k = Some a -> bufferB !! k = Some b ->
          dest' !! k
          = Some (fadd (fmul a (fsub fone
                                  (fade_factor length (Z.of_nat k) true)))
                       (fmul b (fade_factor length (Z.of_nat k) true))))
    /\ (forall k : nat, length <= Z.of_nat k -> dest' !! k = dest !! k).
Proof.
  intros Hn0 Ha Hb Hd. unfold Crossfade.
  destruct (length =? 0) eqn:E.
  { apply Z.eqb_eq in E. exists dest. repeat split; try done.
    intros k a b Hlt. lia. }
  destruct (array_loop_pointwise
              (fun i _ =>
                 let fade := fade_factor length i true in
                 fadd (fmul (default fzero (bufferA !! Z.to_nat i))
                            (fsub fone fade))
                      (fmul (default fzero (bufferB !! Z.to_nat i)) fade))
              (fun i d =>
                 let fade := fdiv (of_size i) (of_size (size_sub length 1)) in
                 do a <- array_read bufferA i;
                 do b <- array_read bufferB i;
                 array_write d i
                   (fadd (fmul a (fsub fone fade)) (fmul b fade)))
              (Z.to_nat length) 0 dest)
    as (dest' & Hloop & Hlen & Hk); [lia | lia | |].
  - intros i d Hi. cbv zeta.
    rewrite (array_read_lookup bufferA), (array_read_lookup bufferB) by lia.
    destruct (bufferA !! Z.to_nat i) eqn:EA;
      [| apply lookup_ge_None in EA; unfold array_length in Ha; lia].
    destruct (bufferB !! Z.to_nat i) eqn:EB;
      [| apply lookup_ge_None in EB; unfold array_length in Hb; lia].
    cbn. apply array_write_read.
  - exists dest'. split; [exact Hloop |]. split; [exact Hlen |]. split.
    + intros k a b Hlt HA HB. rewrite Hk.
      destruct (decide _); [|lia]. rewrite Nat2Z.id, HA, HB.
      destruct (dest !! k) eqn:E'; [done |].
      apply lookup_ge_None in E'. unfold array_length in Hd. lia.
    + intros k Hge. rewrite Hk. destruct (decide _); [lia | done].
Qed.

Lemma to_size_range (x : float) (p : Z) : to_size x = Some p -> is_size p.
Proof.
  unfold to_size, is_size. destruct (ftrunc x) as [z |]; [|done].
  destruct (_ && _) eqn:E; [|done]. intros [= <-].
  apply andb_prop in E as [E1 E2].
  apply Z.leb_le in E1. apply Z.ltb_lt in E2. done.
Qed.

(** X21.  [ProcessReverse] never reads outside the loop: for a loop of
    [length >= 1] samples that the buffer holds and a playhead that
    converts to the index [p], it returns sample [length - 1 - p] when
    [p < length] and sample 0 otherwise.  For [length = 0] it returns
    zero. *)
Theorem ProcessReverse_sample (buffer : list float) (playhead : float)
    (length p : Z) :
  (length = 0 -> ProcessReverse buffer playhead length = Some fzero)
  /\ (0 < length < SIZE_MOD -> length <= array_length buffer ->
      to_size playhead = Some p ->
      is_Some (ProcessReverse buffer playhead length)
      /\ ProcessReverse buffer playhead length
         = buffer !! Z.to_nat (if p <? length then length - 1 - p else 0)).
Proof.
  unfold ProcessReverse. split; [by intros -> |].
  intros Hl Hb Hp. pose proof (to_size_range _ _ Hp) as [Hp0 Hp1].
  destruct (length =? 0) eqn:E; [apply Z.eqb_eq in E; lia |].
  rewrite Hp. cbv zeta. unfold size_sub.
  rewrite (wrap_small (length - 1)) by lia.
  assert (Hidx : (if length <=? wrap (length - 1 - p) then 0
                  else wrap (length - 1 - p))
                 = (if p <? length then length - 1 - p else 0)).
  { destruct (p <? length) eqn:Ep.
    - apply Z.ltb_lt in Ep. rewrite wrap_small by lia.
      destruct (_ <=? _) eqn:E'; [apply Z.leb_le in E'; lia | done].
    - apply Z.ltb_ge in Ep. rewrite wrap_neg by lia.
      destruct (_ <=? _) eqn:E'; [done | apply Z.leb_gt in E'; lia]. }
  rewrite Hidx.
  assert (Hin : 0 <= (if p <? length then length - 1 - p else 0)
                < array_length buffer).
  { destruct (p <? length) eqn:Ep; [apply Z.ltb_lt in Ep |]; lia. }
  rewrite array_read_lookup by exact Hin. split; [|done].
  apply lookup_lt_is_Some. unfold array_length in Hin. lia.
Qed.

(** The low-pass loop from index [from] on. *)
Lemma lowpass_loop (n : nat) :
  forall (from : Z) (a : list float),
    1 <= from -> from + Z.of_nat n <= array_length a ->
    from + Z.of_nat n <= SIZE_MOD ->
    exists a',
      array_loop n from lowpass_body a = Some a'
      /\ array_length a' = array_length a
      /\ (forall k : nat,
            Z.of_nat k < from \/ from + Z.of_nat n <= Z.of_nat k ->
            a' !! k = a !! k)
      /\ (forall (k : nat) x y,
            from <= Z.of_nat k < from + Z.of_nat n ->
            a !! k = Some x -> a' !! (k - 1)%nat = Some y ->
            a' !! k
            = Some (fadd (fmul x (of_Q (1 # 10)))
                         (fmul y (fsub fone (of_Q (1 # 10)))))).
Proof.
  induction n as [| n IH]; intros from a Hfrom Hfit Hmax; cbn [array_loop].
  - exists a. repeat split; try done. intros k x y Hk. lia.
  - unfold lowpass_body at 1. cbv zeta. unfold size_sub.
    rewrite (wrap_small (from - 1)) by lia.
    destruct (array_read_Some a from ltac:(lia)) as (x0 & Hr0 & Hx0).
    destruct (array_read_Some a (from - 1) ltac:(lia)) as (p0 & Hr1 & Hp0).
    rewrite Hr0, Hr1, array_write_Some by lia.
    set (v0 := fadd _ _).
    set (a1 := <[Z.to_nat from := v0]> a).
    assert (Hlen1 : array_length a1 = array_length a)
      by (unfold array_length, a1; by rewrite length_insert).
    destruct (IH (from + 1) a1) as (a' & Hloop & Hlen & Hframe & Hrec);
      [lia | rewrite Hlen1; lia | lia |].
    exists a'. split; [exact Hloop |]. split; [congruence |].
    unfold array_length in Hfit.
    assert (Hat : a' !! Z.to_nat from = Some v0).
    { rewrite Hframe by lia. unfold a1.
      apply list_lookup_insert_eq. lia. }
    assert (Hbefore : a' !! Z.to_nat (from - 1) = Some p0).
    { rewrite Hframe by lia. unfold a1.
      rewrite list_lookup_insert_ne by lia. exact Hp0. }
    split.
    + intros k Hk. rewrite Hframe by lia. unfold a1.
      apply list_lookup_insert_ne. lia.
    + intros k x y Hk Hx Hy.
      destruct (decide (Z.of_nat k = from)) as [E | E].
      * assert (Ek : k = Z.to_nat from) by lia. subst k.
        replace (Z.to_nat from - 1)%nat with (Z.to_nat (from - 1)) in Hy
          by lia.
        rewrite Hat. unfold v0. congruence.
      * apply Hrec; [lia | | exact Hy].
        unfold a1. rewrite list_lookup_insert_ne by lia. exact Hx.
Qed.

(** X22.  [ApplyFilter] changes the buffer for [FILTER_LOWPASS] only.
    There, on [length] samples that the buffer holds, it leaves sample 0
    and the samples from [length] on, and every sample [k] in between
    becomes [old[k] * 0.1 + new[k-1] * (1 - 0.1)], the one before it
    being taken after its own update. *)
Theorem ApplyFilter_lowpass (buffer : list float) (length : Z) :
  (forall type,
     type <> FILTER_LOWPASS -> ApplyFilter buffer length type = Some buffer)
  /\ (0 <= length < SIZE_MOD -> length <= array_length buffer ->
      exists buffer',
        ApplyFilter buffer length FILTER_LOWPASS = Some buffer'
        /\ array_length buffer' = array_length buffer
        /\ buffer' !! 0%nat = buffer !! 0%nat
        /\ (forall k : nat,
              length <= Z.of_nat k -> buffer' !! k = buffer !! k)
        /\ (forall (k : nat) x y,
              1 <= Z.of_nat k < length ->
              buffer !! k = Some x -> buffer' !! (k - 1)%nat = Some y ->
              buffer' !! k
              = Some (fadd (fmul x (of_Q (1 # 10)))
                           (fmul y (fsub fone (of_Q (1 # 10))))))).
Proof.
  split.
  - intros type Hne. unfold ApplyFilter.
    destruct type; cbn; try done; by destruct (length =? 0).
  - intros Hl Hb. unfold ApplyFilter. cbn [FilterType_eqb orb].
    destruct (length =? 0) eqn:E.
    { apply Z.eqb_eq in E. exists buffer. repeat split; try done.
      intros k x y Hk. lia. }
    apply Z.eqb_neq in E.
    destruct (lowpass_loop (Z.to_nat (length - 1)) 1 buffer)
      as (b' & Hloop & Hlen & Hframe & Hrec); [lia | lia | lia |].
    exists b'. split; [exact Hloop |]. split; [exact Hlen |].
    split; [apply Hframe; lia |]. split.
    + intros k Hk. apply Hframe. lia.
    + intros k x y Hk. apply Hrec. lia.
Qed.
End DSPMore.

(** ** Concrete cases of the further properties *)

Section MoreCases.
Import OverdubLooper History DSPUtils LoopEffects Fixtures Samples.
#[local] Existing Instance daisy.
#[local] Existing Instance exact_arith.

(** A run that returns a value returns the value it evaluates to. *)
Ltac run_some d :=
  lazymatch goal with
  | |- exists x, ?r = Some x =>
      exists (default d r); vm_compute; reflexivity
  end.

Ltac run_pair d :=
  lazymatch goal with
  | |- exists x y, ?r = Some (x, y) =>
      exists (fst (default d r)), (snd (default d r));
      vm_compute; reflexivity
  end.

Lemma previous_current_allowed_witness :
  let m :=
    MachineRuns.machine_calls [MachineRuns.MProcessEvent PRESS_REC]
      (LooperStateMachine.init tt) in
  LooperStateMachine._current_state m = RECORDING_INITIAL
  /\ LooperStateMachine._previous_state m = IDLE.
Proof.
  intros m. split; [reflexivity |].
  exact (proj1 (proj2 (previous_current_allowed
                         [MachineRuns.MProcessEvent PRESS_REC] tt))
               eq_refl).
Defined.

Lemma IsRecording_changes_witness :
  let m := LooperStateMachine.init tt in
  (LooperStateMachine.IsRecording m = false
   /\ LooperStateMachine.IsRecording
        (snd (LooperStateMachine.ProcessEvent PRESS_REC m)) = true)
  /\ PRESS_REC = PRESS_REC.
Proof.
  intros m. split; [split; reflexivity |].
  apply (proj1 (IsRecording_changes m PRESS_REC)); reflexivity.
Defined.

Lemma slow_clock_ok : ClockRuns.clock_ok slow_clock.
Proof. repeat split; vm_compute; (reflexivity || discriminate). Defined.

Lemma Ticks_counters_witness :
  ClockRuns.clock_ok slow_clock
  /\ ClockSync._sample_counter (ClockRuns.Ticks 6 slow_clock) = 2
  /\ ClockSync._beat_counter (ClockRuns.Ticks 6 slow_clock) = 1.
Proof.
  split; [exact slow_clock_ok |].
  rewrite (proj1 (Ticks_counters slow_clock 6 slow_clock_ok)).
  split; reflexivity.
Defined.

Lemma Ticks_bar_period_witness :
  ClockRuns.clock_ok slow_clock
  /\ ClockRuns.Ticks 16 slow_clock = slow_clock.
Proof.
  split; [exact slow_clock_ok |].
  exact (Ticks_bar_period slow_clock slow_clock_ok).
Defined.

Lemma Ticks_after_Reset_witness :
  (0 < ClockSync._samples_per_beat slow_clock < SIZE_MOD
   /\ 0 < ClockSync._time_sig_numerator slow_clock < 256)
  /\ ClockSync.IsDownbeat (ClockRuns.Ticks 17 (ClockSync.Reset slow_clock))
     = true
  /\ ClockSync.IsDownbeat (ClockRuns.Ticks 5 (ClockSync.Reset slow_clock))
     = false.
Proof.
  assert (H1 : 0 < ClockSync._samples_per_beat slow_clock < SIZE_MOD)
    by (split; reflexivity).
  assert (H2 : 0 < ClockSync._time_sig_numerator slow_clock < 256)
    by (split; reflexivity).
  split; [done |]. split.
  - rewrite (proj2 (Ticks_after_Reset slow_clock 17 H1 H2)). reflexivity.
  - rewrite (proj2 (Ticks_after_Reset slow_clock 5 H1 H2)). reflexivity.
Defined.


Lemma QuantizeLength_floor_witness :
  let st := quantized_engine 4 in
  (is_size 10 /\ _quantize st = true /\ 0 < _quantize_beats st)
  /\ QuantizeLength 10 st = Some 8.
Proof.
  intros st.
  assert (H1 : is_size 10) by (split; [discriminate | reflexivity]).
  assert (H2 : _quantize st = true) by reflexivity.
  assert (H3 : 0 < _quantize_beats st) by reflexivity.
  split; [done |].
  destruct (proj2 (QuantizeLength_floor st 10 H1) H2 H3)
    as (r & Hq & Hr & _).
  rewrite Hq, Hr. reflexivity.
Defined.

Lemma calls_quantize_defined_witness :
  let st := engine_state 4 in
  let cs := [CallSetQuantize true 0; CallStartRecording] in
  0 < _quantize_beats st
  /\ exists st',
       calls cs st = Some st'
       /\ 0 < _quantize_beats st'
       /\ is_Some (QuantizeLength 7 st').
Proof.
  intros st cs.
  assert (H1 : 0 < _quantize_beats st) by reflexivity.
  split; [exact H1 |].
  assert (Hrun : exists st', calls cs st = Some st')
    by run_some st.
  destruct Hrun as [st' Hrun]. exists st'. split; [exact Hrun |].
  destruct (calls_quantize_defined cs st st' H1 Hrun) as (Hq & HL & _).
  split; [exact Hq | apply HL].
Defined.

Lemma loop_length_positive_witness :
  let st := engine_state 4 in
  exists st',
    calls [CallSetLoop 0%Q 0%Q] (SetLoopRegion 3 1 st) = Some st'
    /\ 1 <= _loop_length (SetLoopRegion 3 1 st) < SIZE_MOD
    /\ 1 <= _loop_length st'.
Proof.
  intros st.
  assert (Hrun : exists st',
            calls [CallSetLoop 0%Q 0%Q] (SetLoopRegion 3 1 st) = Some st')
    by run_some st.
  destruct Hrun as [st' Hrun]. exists st'. split; [exact Hrun |].
  exact (loop_length_positive _ 3 1 st st' Hrun).
Defined.

Lemma undo_disabled_forever_witness :
  let cs := [CallStartOverdub; CallUndo] in
  _undo_enabled plain_engine = false
  /\ exists st',
       calls cs plain_engine = Some st'
       /\ CanUndo st' = false
       /\ Undo st' = Some (false, st').
Proof.
  intros cs.
  assert (H1 : _undo_enabled plain_engine = false) by reflexivity.
  split; [exact H1 |].
  assert (Hrun : exists st', calls cs plain_engine = Some st')
    by run_some plain_engine.
  destruct Hrun as [st' Hrun]. exists st'. split; [exact Hrun |].
  destruct (undo_disabled_forever cs plain_engine st' H1 Hrun)
    as (Hu & _ & _ & Hundo & _).
  split; [exact Hu | exact Hundo].
Defined.

Lemma loop_engine_ready : save_ready loop_engine.
Proof.
  unfold save_ready.
  do 8 (split; [repeat split; vm_compute; (reflexivity || discriminate) |]).
  exists [0%Q; 0%Q; 0%Q; 0%Q].
  split; [reflexivity | vm_compute; discriminate].
Defined.

Lemma Undo_after_Save_witness :
  save_ready loop_engine
  /\ exists st1,
       SaveUndoState loop_engine = Some st1
       /\ exists st3,
            Undo (set_buffer [9%Q; 9%Q; 9%Q; 9%Q] st1) = Some (true, st3)
            /\ region_content st3 = [1%Q; 2%Q; 3%Q; 4%Q].
Proof.
  split; [exact loop_engine_ready |].
  destruct (Undo_after_Save loop_engine loop_engine_ready)
    as (st1 & Hsave & Hbuf & Hundo).
  exists st1. split; [exact Hsave |].
  destruct (Hundo (set_buffer (H0 := exact_arith) [9%Q; 9%Q; 9%Q; 9%Q] st1))
    as (st3 & Hu & Hr & _).
  { unfold same_history.
    cbn [set_buffer _undo_buffers _undo_enabled _undo_count _undo_write_index
         _undo_read_index _undo_depth _redo_depth _loop_start _loop_length
         _buffer].
    rewrite Hbuf. repeat split. }
  exists st3. split; [exact Hu |]. rewrite Hr. reflexivity.
Defined.

Lemma overdub_block_defined (st1 : OverdubLooper.t) :
  StartOverdub loop_engine = Some st1 ->
  exists outs st2, ProcessBlock [5%Q; 5%Q] st1 = Some (outs, st2).
Proof.
  intros Hstart.
  assert (E : st1 = default loop_engine (StartOverdub loop_engine))
    by (rewrite Hstart; reflexivity).
  rewrite E.
  run_pair (@nil Q, loop_engine).
Qed.

Lemma Overdub_then_Undo_witness :
  save_ready loop_engine
  /\ exists st1 outs st2 st3,
       StartOverdub loop_engine = Some st1
       /\ _overdubbing st1 = true
       /\ ProcessBlock [5%Q; 5%Q] st1 = Some (outs, st2)
       /\ Undo st2 = Some (true, st3)
       /\ region_content st3 = [1%Q; 2%Q; 3%Q; 4%Q].
Proof.
  split; [exact loop_engine_ready |].
  destruct (Overdub_then_Undo loop_engine [5%Q; 5%Q] loop_engine_ready)
    as (st1 & Hstart & Hov & Hundo).
  destruct (overdub_block_defined st1 Hstart) as (outs & st2 & Hblock).
  destruct (Hundo outs st2 Hblock) as (st3 & Hu & Hr).
  exists st1, outs, st2, st3.
  repeat split; try done; rewrite Hr; reflexivity.
Defined.

Lemma Process_playback_readonly_witness :
  (_is_recording loop_engine = false /\ _overdubbing loop_engine = false)
  /\ exists out st',
       Process 7%Q loop_engine = Some (out, st')
       /\ Process 0%Q loop_engine = Some (out, st')
       /\ st' = set_play_head (_play_head st') loop_engine.
Proof.
  assert (H1 : _is_recording loop_engine = false) by reflexivity.
  assert (H2 : _overdubbing loop_engine = false) by reflexivity.
  split; [done |].
  assert (Hstep : exists out st', Process 7%Q loop_engine = Some (out, st'))
    by run_pair (0%Q, loop_engine).
  destruct Hstep as (out & st' & Hstep). exists out, st'.
  destruct (Process_playback_readonly loop_engine st' 7%Q out H1 H2 Hstep)
    as (Hframe & Hany & _).
  split; [exact Hstep |]. split; [apply Hany | exact Hframe].
Defined.

Lemma Undo_Redo_outcome_witness :
  (0 <= _undo_depth loop_engine /\ 0 <= _redo_depth loop_engine
   /\ 0 <= _loop_length loop_engine)
  /\ Undo loop_engine = Some (false, loop_engine)
  /\ CanUndo loop_engine = false.
Proof.
  assert (H1 : 0 <= _undo_depth loop_engine) by discriminate.
  assert (H2 : 0 <= _redo_depth loop_engine) by discriminate.
  assert (H3 : 0 <= _loop_length loop_engine) by discriminate.
  assert (Hu : Undo loop_engine = Some (false, loop_engine)) by reflexivity.
  split; [done |]. split; [exact Hu |].
  destruct (proj1 (Undo_Redo_outcome loop_engine loop_engine false H1 H2 H3)
              Hu) as (Hcan & _).
  symmetry. exact Hcan.
Defined.

Lemma Init_members_witness :
  exists st',
    Init (replicate 4 1%Q) 4 (Some (replicate 3 (replicate 4 0%Q))) 5
         loop_engine = Some st'
    /\ _undo_enabled st' = true
    /\ _undo_count st' = 3
    /\ _buffer st' = [0%Q; 0%Q; 0%Q; 0%Q]
    /\ _loop_length st' = 4.
Proof.
  assert (Hinit : exists st',
            Init (replicate 4 1%Q) 4 (Some (replicate 3 (replicate 4 0%Q))) 5
                 loop_engine = Some st')
    by run_some loop_engine.
  destruct Hinit as [st' Hinit]. exists st'. split; [exact Hinit |].
  destruct (Init_members _ _ _ _ _ _ Hinit)
    as (_ & He & Hc & _ & Hb & (_ & _ & _ & _ & _ & Hl & _)).
  split; [exact He |]. split.
  - rewrite Hc, He. reflexivity.
  - split; [| exact Hl].
    rewrite Hb; [reflexivity | discriminate | reflexivity].
Defined.

Lemma MixBuffersWithGain_samples_witness :
  let dest := [1%Q; 2%Q; 3%Q] in
  let src := [10%Q; 20%Q; 30%Q] in
  (0 <= 2 /\ 2 <= array_length dest /\ 2 <= array_length src)
  /\ exists dest',
       MixBuffersWithGain dest src 2 2%Q = Some dest'
       /\ dest' !! 1%nat = Some 42%Q
       /\ dest' !! 2%nat = Some 3%Q.
Proof.
  intros dest src.
  assert (H1 : 0 <= 2) by discriminate.
  assert (H2 : 2 <= array_length dest) by discriminate.
  assert (H3 : 2 <= array_length src) by discriminate.
  split; [done |].
  destruct (MixBuffersWithGain_samples (H0 := exact_arith) dest src 2 2%Q H1 H2 H3)
    as (dest' & Hm & _ & Hin & Hout).
  exists dest'. split; [exact Hm |]. split.
  - exact (Hin 1%nat 2%Q 20%Q ltac:(reflexivity) eq_refl eq_refl).
  - rewrite Hout; [reflexivity | discriminate].
Defined.

Lemma CopyWithGain_samples_witness :
  let dest := [1%Q; 2%Q; 3%Q] in
  let src := [10%Q; 20%Q; 30%Q] in
  (0 <= 2 /\ 2 <= array_length dest /\ 2 <= array_length src)
  /\ exists dest',
       CopyWithGain dest src 2 2%Q = Some dest'
       /\ dest' !! 1%nat = Some 40%Q
       /\ dest' !! 2%nat = Some 3%Q.
Proof.
  intros dest src.
  assert (H1 : 0 <= 2) by discriminate.
  assert (H2 : 2 <= array_length dest) by discriminate.
  assert (H3 : 2 <= array_length src) by discriminate.
  split; [done |].
  destruct (CopyWithGain_samples (H0 := exact_arith) dest src 2 2%Q H1 H2 H3)
    as (dest' & Hm & _ & Hin & Hout).
  exists dest'. split; [exact Hm |]. split.
  - exact (Hin 1%nat 20%Q ltac:(reflexivity) eq_refl).
  - rewrite Hout; [reflexivity | discriminate].
Defined.

Lemma ApplyLinearFade_samples_witness :
  let buffer := [4%Q; 4%Q; 4%Q; 7%Q] in
  (0 <= 3 /\ 3 <= array_length buffer)
  /\ exists buffer',
       ApplyLinearFade buffer 3 false = Some buffer'
       /\ buffer' !! 1%nat = Some (fmul 4%Q (fsub 1%Q (fdiv 1%Q 2%Q)))
       /\ buffer' !! 3%nat = Some 7%Q.
Proof.
  intros buffer.
  assert (H1 : 0 <= 3) by discriminate.
  assert (H2 : 3 <= array_length buffer) by discriminate.
  split; [done |].
  destruct (ApplyLinearFade_samples (H0 := exact_arith) buffer 3 false H1 H2)
    as (buffer' & Hm & _ & Hin & Hout).
  exists buffer'. split; [exact Hm |]. split.
  - exact (Hin 1%nat 4%Q ltac:(reflexivity) eq_refl).
  - rewrite Hout; [reflexivity | discriminate].
Defined.

Lemma Crossfade_samples_witness :
  let a := [8%Q; 8%Q; 8%Q] in
  let b := [2%Q; 2%Q; 2%Q] in
  let dest := [0%Q; 0%Q; 0%Q; 5%Q] in
  (0 <= 3 /\ 3 <= array_length a /\ 3 <= array_length b
   /\ 3 <= array_length dest)
  /\ exists dest',
       Crossfade a b dest 3 = Some dest'
       /\ dest' !! 1%nat
          = Some (fadd (fmul 8%Q (fsub 1%Q (fdiv 1%Q 2%Q)))
                       (fmul 2%Q (fdiv 1%Q 2%Q)))
       /\ dest' !! 3%nat = Some 5%Q.
Proof.
  intros a b dest.
  assert (H1 : 0 <= 3) by discriminate.
  assert (H2 : 3 <= array_length a) by discriminate.
  assert (H3 : 3 <= array_length b) by discriminate.
  assert (H4 : 3 <= array_length dest) by discriminate.
  split; [done |].
  destruct (Crossfade_samples (H0 := exact_arith) a b dest 3 H1 H2 H3 H4)
    as (dest' & Hm & _ & Hin & Hout).
  exists dest'. split; [exact Hm |]. split.
  - exact (Hin 1%nat 8%Q 2%Q ltac:(reflexivity) eq_refl eq_refl).
  - rewrite Hout; [reflexivity | discriminate].
Defined.

Lemma ProcessReverse_sample_witness :
  let buffer := [1%Q; 2%Q; 3%Q] in
  (0 < 3 < SIZE_MOD /\ 3 <= array_length buffer
   /\ to_size 1%Q = Some 1 /\ to_size 5%Q = Some 5)
  /\ ProcessReverse buffer 1%Q 3 = Some 2%Q
  /\ ProcessReverse buffer 5%Q 3 = Some 1%Q.
Proof.
  intros buffer.
  assert (H1 : 0 < 3 < SIZE_MOD) by (split; reflexivity).
  assert (H2 : 3 <= array_length buffer) by discriminate.
  assert (H3 : to_size 1%Q = Some 1) by reflexivity.
  assert (H4 : to_size 5%Q = Some 5) by reflexivity.
  split; [done |]. split.
  - rewrite (proj2 (proj2 (ProcessReverse_sample (H0 := exact_arith)
                           buffer 1%Q 3 1) H1 H2 H3)).
    reflexivity.
  - rewrite (proj2 (proj2 (ProcessReverse_sample (H0 := exact_arith)
                           buffer 5%Q 3 5) H1 H2 H4)).
    reflexivity.
Defined.

Lemma ApplyFilter_lowpass_witness :
  let buffer := [10%Q; 20%Q; 30%Q] in
  (0 <= 2 < SIZE_MOD /\ 2 <= array_length buffer)
  /\ ApplyFilter buffer 2 FILTER_HIGHPASS = Some buffer
  /\ exists buffer',
       ApplyFilter buffer 2 FILTER_LOWPASS = Some buffer'
       /\ buffer' !! 0%nat = Some 10%Q
       /\ buffer' !! 1%nat
          = Some (fadd (fmul 20%Q (1 # 10)%Q)
                       (fmul 10%Q (fsub 1%Q (1 # 10)%Q)))
       /\ buffer' !! 2%nat = Some 30%Q.
Proof.
  intros buffer.
  assert (H1 : 0 <= 2 < SIZE_MOD) by (split; [discriminate | reflexivity]).
  assert (H2 : 2 <= array_length buffer) by discriminate.
  split; [done |].
  destruct (ApplyFilter_lowpass (H0 := exact_arith) buffer 2)
    as [Hother Hlow].
  split; [apply Hother; discriminate |].
  destruct (Hlow H1 H2) as (buffer' & Hf & _ & Hfirst & Hrest & Hrec).
  exists buffer'. split; [exact Hf |].
  assert (H0' : buffer' !! 0%nat = Some 10%Q)
    by exact (eq_trans Hfirst eq_refl).
  split; [exact H0' |]. split.
  - exact (Hrec 1%nat 20%Q 10%Q ltac:(split; [discriminate | reflexivity])
             eq_refl H0').
  - rewrite Hrest; [reflexivity | discriminate].
Defined.
End MoreCases.

(** ** State machine: stopping *)

Section MachineStop.
Import LooperStateMachine.
Context {U : Type} `{Hooks U}.

(** X23.  From every state, [Reset] and the event [PRESS_STOP] leave the
    machine in [IDLE], hence neither active nor recording.  [Reset]
    records the state it left as the previous one, and [ProcessEvent]
    on [PRESS_STOP] returns true exactly when the machine was active. *)
Theorem stop_reaches_IDLE (m : t U) :
  (_current_state (Reset m) = IDLE
   /\ _previous_state (Reset m) = _current_state m
   /\ IsActive (Reset m) = false /\ IsRecording (Reset m) = false)
  /\ (_current_state (snd (ProcessEvent PRESS_STOP m)) = IDLE
      /\ fst (ProcessEvent PRESS_STOP m) = IsActive m
      /\ IsActive (snd (ProcessEvent PRESS_STOP m)) = false
      /\ IsRecording (snd (ProcessEvent PRESS_STOP m)) = false).
Proof. destruct m as [[] p u]; cbn; done. Qed.
End MachineStop.

(** ** Sketch: RGB565 colours *)

Section SketchMore.
Import Sketch.

(** A check that holds on every element of [0 .. n - 1] holds on every
    value of that range. *)
Lemma range_cases (n : Z) (P : Z -> bool) :
  forallb P (seqZ 0 n) = true -> forall x, 0 <= x < n -> P x = true.
Proof.
  intros Hall x Hx. rewrite forallb_forall in Hall. apply Hall.
  apply list_elem_of_In, elem_of_seqZ. lia.
Qed.

Lemma land_F8 x : 0 <= x < 256 -> Z.land x 0xF8 = 8 * (x / 8).
Proof.
  intros Hx. apply Z.eqb_eq.
  apply (range_cases 256 (fun x => Z.land x 0xF8 =? 8 * (x / 8)));
    [vm_compute; reflexivity | exact Hx].
Qed.

Lemma land_FC x : 0 <= x < 256 -> Z.land x 0xFC = 4 * (x / 4).
Proof.
  intros Hx. apply Z.eqb_eq.
  apply (range_cases 256 (fun x => Z.land x 0xFC =? 4 * (x / 4)));
    [vm_compute; reflexivity | exact Hx].
Qed.

(** The three fields do not overlap. *)
Lemma fields_sum i j k :
  0 <= i < 32 -> 0 <= j < 64 -> 0 <= k < 32 ->
  Z.lor (Z.lor (2048 * i) (32 * j)) k = 2048 * i + 32 * j + k.
Proof.
  intros Hi Hj Hk. apply Z.eqb_eq.
  apply (range_cases 32
           (fun k => Z.lor (Z.lor (2048 * i) (32 * j)) k
                     =? 2048 * i + 32 * j + k)); [| exact Hk].
  apply (range_cases 64
           (fun j =>
              forallb
                (fun k => Z.lor (Z.lor (2048 * i) (32 * j)) k
                          =? 2048 * i + 32 * j + k) (seqZ 0 32)));
    [| exact Hj].
  apply (range_cases 32
           (fun i =>
              forallb
                (fun j =>
                   forallb
                     (fun k => Z.lor (Z.lor (2048 * i) (32 * j)) k
                               =? 2048 * i + 32 * j + k) (seqZ 0 32))
                (seqZ 0 64)));
    [vm_compute; reflexivity | exact Hi].
Qed.

(** X24.  On 8-bit channels [COLOR] is the RGB565 packing: the result
    is a 16-bit value whose top five bits are the top five bits of [r],
    whose middle six bits are the top six bits of [g], and whose low
    five bits are the top five bits of [b]. *)
Theorem COLOR_rgb565 (r g b : Z) :
  0 <= r < 256 -> 0 <= g < 256 -> 0 <= b < 256 ->
  COLOR r g b = 2048 * (r / 8) + 32 * (g / 4) + b / 8
  /\ 0 <= COLOR r g b < 65536
  /\ COLOR r g b / 2048 = r / 8
  /\ (COLOR r g b / 32) mod 64 = g / 4
  /\ COLOR r g b mod 32 = b / 8.
Proof.
  intros Hr Hg Hb.
  assert (Hi : 0 <= r / 8 < 32) by (Z.div_mod_to_equations; lia).
  assert (Hj : 0 <= g / 4 < 64) by (Z.div_mod_to_equations; lia).
  assert (Hk : 0 <= b / 8 < 32) by (Z.div_mod_to_equations; lia).
  assert (Hc : COLOR r g b = 2048 * (r / 8) + 32 * (g / 4) + b / 8).
  { unfold COLOR. rewrite land_F8, land_FC by done.
    rewrite !Z.shiftl_mul_pow2, Z.shiftr_div_pow2 by lia.
    change (2 ^ 8) with 256. change (2 ^ 3) with 8.
    replace (8 * (r / 8) * 256) with (2048 * (r / 8)) by lia.
    replace (4 * (g / 4) * 8) with (32 * (g / 4)) by lia.
    by apply fields_sum. }
  rewrite Hc. generalize dependent (r / 8). generalize dependent (g / 4).
  generalize dependent (b / 8). intros k Hk j Hj i Hi _.
  repeat split; try lia.
  - symmetry. apply (Z.div_unique _ _ _ (32 * j + k)); lia.
  - replace ((2048 * i + 32 * j + k) / 32) with (64 * i + j)
      by (apply (Z.div_unique _ _ _ k); lia).
    symmetry. apply (Z.mod_unique _ _ i); lia.
  - symmetry. apply (Z.mod_unique _ _ (64 * i + j)); lia.
Qed.
End SketchMore.

Section SketchCases.
Import Sketch.

(** [C_TEXT_LIGHT] is [COLOR(200, 220, 255)]. *)
Lemma COLOR_rgb565_witness :
  (0 <= 200 < 256 /\ 0 <= 220 < 256 /\ 0 <= 255 < 256)
  /\ COLOR 200 220 255 = 52991
  /\ COLOR 200 220 255 / 2048 = 25.
Proof.
  assert (H1 : 0 <= 200 < 256) by (split; [discriminate | reflexivity]).
  assert (H2 : 0 <= 220 < 256) by (split; [discriminate | reflexivity]).
  assert (H3 : 0 <= 255 < 256) by (split; [discriminate | reflexivity]).
  split; [done |].
  destruct (COLOR_rgb565 200 220 255 H1 H2 H3) as (Hc & _ & Hr & _).
  split; [exact Hc | exact Hr].
Defined.
End SketchCases.
